(** * FlowFileRepository: flush, recovery pass, retry wrapper and checkpoint

    A shallow embedding of
    [extensions/rocksdb-repos/FlowFileRepository.cpp] and the properties
    of its delete / recovery pipeline.

    The repository object is a record of its members; the collaborators
    whose code lives elsewhere (the RocksDB engine, the content
    repository, the connections, the file system, the thread's clock) are
    modelled by the calls made on them: every such call is appended to a
    chronological [trace].  Logger calls are left out.  The model is
    sequential: one thread runs the worker, so [keys_to_delete] is a FIFO
    list. *)

From stdpp Require Import base option list strings gmap.
From Stdlib Require Import ZArith Lia Ascii.

Local Open Scope string_scope.
Local Open Scope Z_scope.
Local Open Scope list_scope.

(** ** Data *)

(** [rocksdb::Status], reduced to the codes these functions can meet. *)
Inductive Status := OK | NotFound | IOError.

Definition ok (s : Status) : bool :=
  match s with OK => true | _ => false end.

(** A [std::shared_ptr<ResourceClaim>], identified by a name. *)
Definition ResourceClaim := string.

(** A [std::shared_ptr<Connectable>], identified by a handle. *)
Definition Connectable := nat.

(** The members of [FlowFileRecord] that the repository reads or sets. *)
Record FlowFileRecord := mkFlowFileRecord {
  getUUIDStr : string;
  getConnectionUuid : string;
  getContentFullPath : string;
  getResourceClaim : option ResourceClaim;   (* [None] is [nullptr] *)
  getStoredToRepository : bool
}.

Definition setStoredToRepository (b : bool) (r : FlowFileRecord) : FlowFileRecord :=
  {| getUUIDStr := getUUIDStr r;
     getConnectionUuid := getConnectionUuid r;
     getContentFullPath := getContentFullPath r;
     getResourceClaim := getResourceClaim r;
     getStoredToRepository := b |}.

(** A RocksDB database: its records in iteration order. *)
Definition Store := list (string * string).

(** Calls made on the collaborators. *)
Inductive Event :=
| db_Write (batch : list string) (st : Status)
| sleep_for (ms : Z)
| removeIfOrphaned (claim : ResourceClaim)
| content_remove (claim : ResourceClaim)
| Connection_put (conn : Connectable) (r : FlowFileRecord)
| delete_dir (rc : Z)
| Checkpoint_Create (st : Status)
| CreateCheckpoint (st : Status).

(** The repository object together with the part of the world it acts on.
    The last group of fields scripts how the engine and the file system
    answer: which keys [MultiGet] cannot read, which of the coming
    [Write] calls fail, what [delete_dir] returns. *)
Record FlowFileRepository := mkRepo {
  db_ : Store;
  keys_to_delete : list string;
  content_repo_ : bool;                        (* [false] is [nullptr] *)
  checkpoint_ : bool;                          (* [false] is [nullptr] *)
  connectionMap : gmap string Connectable;
  checkpoint_directory : option Store;         (* FLOWFILE_CHECKPOINT_DIRECTORY on disk *)
  read_faults : list string;
  write_faults : list bool;
  delete_dir_rc : Z;
  Checkpoint_Create_st : Status;
  CreateCheckpoint_st : Status;
  trace : list Event
}.

Definition with_db (s : Store) (w : FlowFileRepository) : FlowFileRepository :=
  mkRepo s (keys_to_delete w) (content_repo_ w) (checkpoint_ w) (connectionMap w)
    (checkpoint_directory w) (read_faults w) (write_faults w) (delete_dir_rc w)
    (Checkpoint_Create_st w) (CreateCheckpoint_st w) (trace w).

Definition with_keys_to_delete (q : list string) (w : FlowFileRepository) : FlowFileRepository :=
  mkRepo (db_ w) q (content_repo_ w) (checkpoint_ w) (connectionMap w)
    (checkpoint_directory w) (read_faults w) (write_faults w) (delete_dir_rc w)
    (Checkpoint_Create_st w) (CreateCheckpoint_st w) (trace w).

Definition with_content_repo_ (b : bool) (w : FlowFileRepository) : FlowFileRepository :=
  mkRepo (db_ w) (keys_to_delete w) b (checkpoint_ w) (connectionMap w)
    (checkpoint_directory w) (read_faults w) (write_faults w) (delete_dir_rc w)
    (Checkpoint_Create_st w) (CreateCheckpoint_st w) (trace w).

Definition with_checkpoint_ (b : bool) (w : FlowFileRepository) : FlowFileRepository :=
  mkRepo (db_ w) (keys_to_delete w) (content_repo_ w) b (connectionMap w)
    (checkpoint_directory w) (read_faults w) (write_faults w) (delete_dir_rc w)
    (Checkpoint_Create_st w) (CreateCheckpoint_st w) (trace w).

Definition with_checkpoint_directory (d : option Store) (w : FlowFileRepository) : FlowFileRepository :=
  mkRepo (db_ w) (keys_to_delete w) (content_repo_ w) (checkpoint_ w) (connectionMap w)
    d (read_faults w) (write_faults w) (delete_dir_rc w)
    (Checkpoint_Create_st w) (CreateCheckpoint_st w) (trace w).

Definition with_write_faults (f : list bool) (w : FlowFileRepository) : FlowFileRepository :=
  mkRepo (db_ w) (keys_to_delete w) (content_repo_ w) (checkpoint_ w) (connectionMap w)
    (checkpoint_directory w) (read_faults w) f (delete_dir_rc w)
    (Checkpoint_Create_st w) (CreateCheckpoint_st w) (trace w).

Definition call (e : Event) (w : FlowFileRepository) : FlowFileRepository :=
  mkRepo (db_ w) (keys_to_delete w) (content_repo_ w) (checkpoint_ w) (connectionMap w)
    (checkpoint_directory w) (read_faults w) (write_faults w) (delete_dir_rc w)
    (Checkpoint_Create_st w) (CreateCheckpoint_st w) (trace w ++ [e]).

(** [keys_to_delete.enqueue(key)] *)
Definition enqueue (key : string) (w : FlowFileRepository) : FlowFileRepository :=
  with_keys_to_delete (keys_to_delete w ++ [key]) w.

(** ** The engine *)

Definition mem (key : string) (l : list string) : bool :=
  existsb (String.eqb key) l.

Fixpoint db_lookup (key : string) (s : Store) : option string :=
  match s with
  | [] => None
  | (k, v) :: s' => if String.eqb key k then Some v else db_lookup key s'
  end.

(** One key of [db_->MultiGet]: the status and the value read. *)
Definition db_Get (w : FlowFileRepository) (key : string) : Status * string :=
  if mem key (read_faults w) then (IOError, "")
  else match db_lookup key (db_ w) with
       | Some v => (OK, v)
       | None => (NotFound, "")
       end.

(** [db_->MultiGet(options, keys, &values)]: one status and one value per key. *)
Definition MultiGet (w : FlowFileRepository) (keys : list string)
  : list Status * list string :=
  (map (fun k => fst (db_Get w k)) keys, map (fun k => snd (db_Get w k)) keys).

(** A committed [WriteBatch] of [Delete] entries, applied as one unit. *)
Definition apply_batch (batch : list string) (s : Store) : Store :=
  List.filter (fun kv => negb (mem (fst kv) batch)) s.

(** [db_->Write(rocksdb::WriteOptions(), &batch)] *)
Definition Write (batch : list string) (w : FlowFileRepository)
  : Status * FlowFileRepository :=
  match write_faults w with
  | true :: rest =>
      (IOError, call (db_Write batch IOError) (with_write_faults rest w))
  | false :: rest =>
      (OK, call (db_Write batch OK) (with_db (apply_batch batch (db_ w)) (with_write_faults rest w)))
  | [] =>
      (OK, call (db_Write batch OK) (with_db (apply_batch batch (db_ w)) w))
  end.

(** C++ [int]: 32 bits, two's complement. *)
Definition INT_MAX : Z := 2147483647.
Definition wrap_int (z : Z) : Z := (z + 2 ^ 31) mod 2 ^ 32 - 2 ^ 31.

(** [std::list<std::string>::remove(value)]: drops every equal element. *)
Definition list_remove (value : string) (l : list string) : list string :=
  List.filter (fun x => negb (String.eqb x value)) l.

(** A [const char*] into a string, read as a C string: the characters
    before the first NUL. *)
Fixpoint c_str (s : string) : string :=
  match s with
  | EmptyString => EmptyString
  | String c s' =>
      if Ascii.eqb c Ascii.zero then EmptyString else String c (c_str s')
  end.

(** ** QueryDatabaseTable: the state file and the select query

    A shallow embedding of the [State] class and of the query building of
    [extensions/sql/processors/QueryDatabaseTable.cpp].  A [std::string]
    is the list of its characters; a
    [std::unordered_map<std::string, std::string>] is the list of its
    entries, with distinct names, in the order they were inserted. *)

Definition std_string := list Ascii.ascii.

(** A string literal. *)
Definition str (s : string) : std_string := String.list_ascii_of_string s.

(** The first index at which [what] occurs in [s]. *)
Fixpoint find_first (what s : std_string) : option nat :=
  if decide (what `prefix_of` s) then Some 0%nat
  else match s with
       | [] => None
       | _ :: s' => S <$> find_first what s'
       end.

(** [s.find(what, pos)]; [None] is [npos]. *)
Definition string_find (what : std_string) (pos : nat) (s : std_string) : option nat :=
  if decide (pos <= length s)%nat then
    (fun n => (pos + n)%nat) <$> find_first what (drop pos s)
  else None.

(** [s.substr(pos, len)] and [s.substr(pos)], for [pos] within [s]. *)
Definition substr (pos len : nat) (s : std_string) : std_string :=
  take len (drop pos s).
Definition substr_from (pos : nat) (s : std_string) : std_string :=
  drop pos s.

Module unordered_map.

Definition t := list (std_string * std_string).

(** [m.find(name)]: the value of the entry, [None] for [end()]. *)
Fixpoint find (name : std_string) (m : t) : option std_string :=
  match m with
  | [] => None
  | (n, v) :: m' => if decide (n = name) then Some v else find name m'
  end.

(** [m.count(name)] *)
Definition count (name : std_string) (m : t) : nat :=
  match find name m with
  | Some _ => 1
  | None => 0
  end.

(** [m.insert({name, value})]: an entry of that name is left as it is. *)
Definition insert (name value : std_string) (m : t) : t :=
  match find name m with
  | Some _ => m
  | None => m ++ [(name, value)]
  end.

(** [it->second = value] for the iterator [m.find(name)] returned. *)
Fixpoint assign (name value : std_string) (m : t) : t :=
  match m with
  | [] => []
  | (n, v) :: m' =>
      if decide (n = name) then (n, value) :: m' else (n, v) :: assign name value m'
  end.

End unordered_map.

Module State.

(** The state file, and what the file system answers about its
    directory: whether the directory exists once [create_dir] has run,
    the content of [State.txt] when it exists, and whether it can be
    opened for writing.  The directories themselves are not part of it:
    what [create_dir] makes is seen only through [is_directory]. *)
Record Disk := mkDisk {
  is_directory : bool;
  content : option std_string;
  writable : bool
}.

Record t := mk {
  mapState_ : unordered_map.t;
  filePath_ : std_string;
  file_is_open : bool;           (* [file_.is_open()] *)
  dataSize_ : nat;
  tableName_ : std_string;
  ok_ : bool;
  disk : Disk
}.

Definition separator : std_string := str "@!qdt!@".

Section WithSeparator.

(** [utils::file::FileUtils::get_separator()] *)
Variable dirSeparator : Ascii.ascii.

(** [createUUIDDir]: the result and the [dir] it leaves.  The call of
    [create_dir] shows only in the answer of [is_directory] after it. *)
Definition createUUIDDir (stateDir uuid : std_string) (d : Disk)
  : bool * std_string :=
  match stateDir with
  | [] => (false, [])
  | _ :: _ =>
      let dirWithSlash :=
        if decide (last stateDir = Some dirSeparator) then stateDir
        else stateDir ++ [dirSeparator] in
      let dir := dirWithSlash ++ str "uuid" ++ [dirSeparator] ++ uuid ++ [dirSeparator] in
      if negb (is_directory d) then (false, [])
      else (true, dir)
  end.

End WithSeparator.

(** [createEmptyStateFile]: open for output, which empties the file. *)
Definition createEmptyStateFile (st : t) : bool * t :=
  if negb (writable (disk st)) then
    (false, mk (mapState_ st) (filePath_ st) false (dataSize_ st) (tableName_ st)
               (ok_ st) (disk st))
  else
    (true, mk (mapState_ st) (filePath_ st) true 0 (tableName_ st) (ok_ st)
              (mkDisk (is_directory (disk st)) (Some []) true)).

Definition clear (st : t) : t :=
  mk [] (filePath_ st) (file_is_open st) (dataSize_ st) (tableName_ st) (ok_ st)
     (disk st).

Definition with_dataSize_ (n : nat) (st : t) : t :=
  mk (mapState_ st) (filePath_ st) (file_is_open st) n (tableName_ st) (ok_ st)
     (disk st).

(** The [while (true)] loop that cuts [state] at the separators; each
    round moves [pos] past a separator, so [fuel] rounds are enough when
    [fuel] exceeds the length of [state]. *)
Fixpoint split_loop (fuel : nat) (state : std_string) (pos : nat)
    (listColumnNameValue : list std_string) : list std_string :=
  match fuel with
  | O => listColumnNameValue
  | S fuel' =>
      match string_find separator pos state with
      | None => listColumnNameValue
      | Some newPos =>
          let columnNameValue := substr pos (newPos - pos) state in
          split_loop fuel' state (newPos + length separator)
                     (listColumnNameValue ++ [columnNameValue])
      end
  end.

(** The loop over [listColumnNameValue]: the map filled, or [None] at the
    first entry without ['=']. *)
Fixpoint insert_loop (l : list std_string) (m : unordered_map.t)
  : option unordered_map.t :=
  match l with
  | [] => Some m
  | columnNameValue :: l' =>
      match string_find (str "=") 0 columnNameValue with
      | None => None
      | Some posEQ =>
          let name := substr 0 posEQ columnNameValue in
          let value := substr_from (posEQ + 1) columnNameValue in
          insert_loop l' (unordered_map.insert name value m)
      end
  end.

Definition with_mapState_ (m : unordered_map.t) (st : t) : t :=
  mk m (filePath_ st) (file_is_open st) (dataSize_ st) (tableName_ st) (ok_ st)
     (disk st).

Definition getStateFromFile (st : t) : bool * t :=
  match content (disk st) with
  | None => createEmptyStateFile st
  | Some state =>
      let st := with_dataSize_ (length state) st in
      match string_find separator 0 state with
      | None => createEmptyStateFile (clear st)
      | Some pos =>
          let tableName := substr 0 pos state in
          if negb (bool_decide (tableName = tableName_ st)) then
            createEmptyStateFile (clear st)
          else
            let pos := (pos + length separator)%nat in
            let listColumnNameValue := split_loop (S (length state)) state pos [] in
            match insert_loop listColumnNameValue (mapState_ st) with
            | None => createEmptyStateFile (clear st)
            | Some m =>
                let st := with_mapState_ m st in
                if negb (writable (disk st)) then
                  (false, clear st)
                else
                  (true, mk (mapState_ st) (filePath_ st) true (dataSize_ st)
                            (tableName_ st) (ok_ st) (disk st))
            end
      end
  end.

(** The constructor. *)
Definition State (dirSeparator : Ascii.ascii) (tableName stateDir uuid : std_string)
    (d : Disk) : t :=
  let st := mk [] [] false 0 tableName false d in
  let '(created, dir) := createUUIDDir dirSeparator stateDir uuid d in
  let st := mk (mapState_ st) dir (file_is_open st) (dataSize_ st) (tableName_ st)
               (ok_ st) (disk st) in
  if negb created then st
  else
    let st := mk (mapState_ st) (filePath_ st ++ str "State.txt") (file_is_open st)
                 (dataSize_ st) (tableName_ st) (ok_ st) (disk st) in
    let '(read, st) := getStateFromFile st in
    if negb read then st
    else mk (mapState_ st) (filePath_ st) (file_is_open st) (dataSize_ st)
            (tableName_ st) true (disk st).

(** [mapState()] *)
Definition mapState (st : t) : unordered_map.t := mapState_ st.

(** Writing [data] at the start of a file that holds [old]. *)
Definition overwrite (data old : std_string) : std_string :=
  data ++ drop (length data) old.

(** One round of the loop of [writeStateToFile]: what has been written
    so far, and [dataSize]. *)
Definition write_entry (acc : std_string * nat) (el : std_string * std_string)
  : std_string * nat :=
  let '(written, dataSize) := acc in
  (written ++ fst el ++ str "=" ++ snd el ++ separator,
   (dataSize + (length (fst el) + 1 + length (snd el) + length separator))%nat).

Definition writeStateToFile (mapState : unordered_map.t) (st : t) : t :=
  let written := tableName_ st ++ separator in
  let dataSize := (length (tableName_ st) + length separator)%nat in
  let '(written, dataSize) := fold_left write_entry mapState (written, dataSize) in
  let written :=
    if decide (dataSize < dataSize_ st)%nat then
      written ++ replicate (dataSize_ st - dataSize) " "%char
    else written in
  let d :=
    if file_is_open st then
      mkDisk (is_directory (disk st))
             (Some (overwrite written (default [] (content (disk st)))))
             (writable (disk st))
    else disk st in
  mk mapState (filePath_ st) (file_is_open st) dataSize (tableName_ st) (ok_ st) d.

(** What [writeStateToFile] writes for the entries of a map. *)
Definition entries (m : unordered_map.t) : std_string :=
  concat (map (fun el => fst el ++ str "=" ++ snd el ++ separator) m).

(** A [State] whose file is open and holds, after the [dataSize_]
    characters last written, nothing but spaces. *)
Definition consistent (st : t) : Prop :=
  file_is_open st = true
  /\ writable (disk st) = true
  /\ exists old, content (disk st) = Some old
       /\ forall c, c ∈ drop (dataSize_ st) old -> c = " "%char.

(** Names and values that the file format can hold: no ['@'] in the
    table name, in a name or in a value, no ['='] in a name, and no name
    twice. *)
Definition storable (tableName : std_string) (m : unordered_map.t) : Prop :=
  ("@"%char ∉ tableName)
  /\ (forall name value, (name, value) ∈ m ->
        ("@"%char ∉ name) /\ ("="%char ∉ name) /\ ("@"%char ∉ value))
  /\ NoDup (map fst m).

End State.

Module QueryDatabaseTable.

(** The properties of the [ProcessContext] that [processOnSchedule]
    reads ([None]: not set, [getProperty] then leaves its argument as it
    is), and the dynamic properties with their values. *)
Record ProcessContext := mkContext {
  s_tableName : option std_string;
  s_columnNames : option std_string;
  s_maxValueColumnNames : option std_string;
  s_whereClause : option std_string;
  s_sqlQuery : option std_string;
  s_maxRowsPerFlowFile : option Z;
  s_stateDirectory : option std_string;
  dynamic_properties : list (std_string * std_string)
}.

Record t := mk {
  tableName_ : std_string;
  columnNames_ : std_string;
  maxValueColumnNames_ : std_string;
  listMaxValueColumnName_ : list std_string;
  whereClause_ : std_string;
  sqlQuery_ : std_string;
  maxRowsPerFlowFile_ : Z;
  pState_ : option State.t;            (* [None] is a null pointer *)
  mapState_ : unordered_map.t
}.

Definition with_pState_ (p : option State.t) (q : t) : t :=
  mk (tableName_ q) (columnNames_ q) (maxValueColumnNames_ q)
     (listMaxValueColumnName_ q) (whereClause_ q) (sqlQuery_ q)
     (maxRowsPerFlowFile_ q) p (mapState_ q).

Definition with_mapState_ (m : unordered_map.t) (q : t) : t :=
  mk (tableName_ q) (columnNames_ q) (maxValueColumnNames_ q)
     (listMaxValueColumnName_ q) (whereClause_ q) (sqlQuery_ q)
     (maxRowsPerFlowFile_ q) (pState_ q) m.

Definition s_initialMaxValueDynamicPropertyPrefix : std_string :=
  str "initial.maxvalue.".

(** The character of code 34, the double quote. *)
Definition double_quote : Ascii.ascii := Ascii.ascii_of_nat 34.

(** How [processOnSchedule] ends: it returns, or it throws a
    [minifi::Exception]; the object is as the call left it. *)
Inductive outcome :=
| Returned (q : t)
| Threw (q : t) (what : std_string).

(** [context.getProperty(name, var)] *)
Definition getProperty {A} (property : option A) (var : A) : A :=
  default var property.

(** The loop that clears [mapState_] at the first listed column it does
    not hold. *)
Fixpoint clear_unless_all_known (columns : list std_string)
    (m : unordered_map.t) : unordered_map.t :=
  match columns with
  | [] => m
  | columName :: columns' =>
      if decide (unordered_map.count columName m = 0%nat) then []
      else clear_unless_all_known columns' m
  end.

(** The loop that adds the listed columns [mapState_] does not hold. *)
Definition add_new_columns (columns : list std_string) (m : unordered_map.t)
  : unordered_map.t :=
  fold_left
    (fun m maxValueColumnName =>
       if decide (unordered_map.count maxValueColumnName m = 0%nat) then
         unordered_map.insert maxValueColumnName [] m
       else m)
    columns m.

Section WithUtils.

(** [utils::inputStringToList] and [utils::toLower], of data/Utils.h, and
    the processor's [getUUIDStr()]. *)
Variable inputStringToList : std_string -> list std_string.
Variable toLower : std_string -> std_string.
Variable getUUIDStr : std_string.
Variable dirSeparator : Ascii.ascii.

(** The loop over the dynamic property keys. *)
Fixpoint initial_values (context : ProcessContext) (keys : list std_string)
    (q : t) : outcome :=
  match keys with
  | [] => Returned q
  | key :: keys' =>
      if negb (bool_decide (s_initialMaxValueDynamicPropertyPrefix `prefix_of` key)) then
        Threw q (str "QueryDatabaseTable: Unsupported dynamic property "
                   ++ [double_quote] ++ key ++ [double_quote])
      else
        let columnName :=
          toLower (substr_from (length s_initialMaxValueDynamicPropertyPrefix) key) in
        match unordered_map.find columnName (mapState_ q) with
        | None => initial_values context keys' q
        | Some second =>
            if negb (bool_decide (second = [])) then initial_values context keys' q
            else
              match unordered_map.find key (dynamic_properties context) with
              | Some value =>
                  if negb (bool_decide (value = [])) then
                    initial_values context keys'
                      (with_mapState_
                         (unordered_map.assign columnName value (mapState_ q)) q)
                  else initial_values context keys' q
              | None => initial_values context keys' q
              end
        end
  end.

(** [processOnSchedule]; [d] is the disk the [State] is built on. *)
Definition processOnSchedule (context : ProcessContext) (d : State.Disk) (q : t)
  : outcome :=
  let maxValueColumnNames := getProperty (s_maxValueColumnNames context)
                                         (maxValueColumnNames_ q) in
  let q := mk (getProperty (s_tableName context) (tableName_ q))
              (getProperty (s_columnNames context) (columnNames_ q))
              maxValueColumnNames
              (inputStringToList maxValueColumnNames)
              (getProperty (s_whereClause context) (whereClause_ q))
              (getProperty (s_sqlQuery context) (sqlQuery_ q))
              (getProperty (s_maxRowsPerFlowFile context) (maxRowsPerFlowFile_ q))
              (pState_ q) (mapState_ q) in
  let stateDir := getProperty (s_stateDirectory context) [] in
  match stateDir with
  | [] => Returned q
  | _ :: _ =>
      let state := State.State dirSeparator (tableName_ q) stateDir getUUIDStr d in
      let q := with_pState_ (Some state) q in
      if negb (State.ok_ state) then Returned q
      else
        let m := State.mapState state in
        let m :=
          if negb (bool_decide (length (listMaxValueColumnName_ q) = length m)) then []
          else clear_unless_all_known (listMaxValueColumnName_ q) m in
        let m := add_new_columns (listMaxValueColumnName_ q) m in
        initial_values context (map fst (dynamic_properties context))
                       (with_mapState_ m q)
  end.

End WithUtils.

(** The loop of [getSelectQuery] over [listMaxValueColumnName_], from
    [index] on: [whereClauses] when it ends, [None] when a listed column
    is not in [mapState_] (the iterator [end()] is dereferenced). *)
Fixpoint where_loop (index : nat) (columns : list std_string)
    (m : unordered_map.t) (whereClauses : std_string) : option std_string :=
  match columns with
  | [] => Some whereClauses
  | columnName :: columns' =>
      match unordered_map.find columnName m with
      | None => None
      | Some maxValue =>
          match maxValue with
          | [] => where_loop (S index) columns' m whereClauses
          | _ :: _ =>
              let whereClauses :=
                if decide (index = 0%nat) then
                  whereClauses ++ (columnName ++ str " > ")
                else
                  whereClauses ++ (str " and " ++ columnName ++ str " >= ") in
              where_loop (S index) columns' m (whereClauses ++ maxValue)
          end
      end
  end.

Definition is_empty {A} (l : list A) : bool :=
  match l with
  | [] => true
  | _ :: _ => false
  end.

Definition getSelectQuery (q : t) : option std_string :=
  let ret :=
    if is_empty (sqlQuery_ q) then
      let columns := if is_empty (columnNames_ q) then str "*" else columnNames_ q in
      str "select " ++ columns ++ str " from " ++ tableName_ q
    else sqlQuery_ q in
  whereClauses ←
    (if negb (is_empty (mapState_ q)) && negb (is_empty (listMaxValueColumnName_ q))
     then where_loop 0 (listMaxValueColumnName_ q) (mapState_ q) []
     else Some []);
  let whereClauses :=
    if negb (is_empty (whereClause_ q)) then
      whereClauses ++ (str " and " ++ whereClause_ q)
    else whereClauses in
  Some (if negb (is_empty whereClauses) then ret ++ (str " where " ++ whereClauses)
        else ret).

(** The object as [processOnSchedule] left it. *)
Definition after (o : outcome) : t :=
  match o with
  | Returned q => q
  | Threw q _ => q
  end.

(** The query before any condition is added. *)
Definition base_query (q : t) : std_string :=
  if is_empty (sqlQuery_ q) then
    str "select "
      ++ (if is_empty (columnNames_ q) then str "*" else columnNames_ q)
      ++ str " from " ++ tableName_ q
  else sqlQuery_ q.

End QueryDatabaseTable.

(** *** A fixture for the state file and the processor

    A state directory that exists, first without a state file, then with
    files written for one column, for another table, and with an entry
    that has no ['='].  The stand-in for [utils::inputStringToList] takes
    two column names apart at a comma. *)

Definition fixture_disk : State.Disk := State.mkDisk true None true.

Definition fixture_disk_recorded : State.Disk :=
  State.mkDisk true (Some (str "orders@!qdt!@id=10@!qdt!@")) true.

Definition fixture_disk_other_table : State.Disk :=
  State.mkDisk true (Some (str "customers@!qdt!@id=10@!qdt!@")) true.

Definition fixture_disk_malformed : State.Disk :=
  State.mkDisk true (Some (str "orders@!qdt!@id=10@!qdt!@junk@!qdt!@")) true.

Definition fixture_State : State.t :=
  State.State "/"%char (str "orders") (str "QDTState") (str "1234") fixture_disk.

Definition fixture_mapState : unordered_map.t :=
  [(str "id", str "10"); (str "updated", str "2020")].

Fixpoint fixture_inputStringToList (s : std_string) : list std_string :=
  match s with
  | [] => [[]]
  | c :: s' =>
      if decide (c = ","%char) then [] :: fixture_inputStringToList s'
      else match fixture_inputStringToList s' with
           | column :: columns => (c :: column) :: columns
           | [] => [[c]]
           end
  end.

Definition fixture_toLower (s : std_string) : std_string := s.

Definition fixture_context : QueryDatabaseTable.ProcessContext :=
  QueryDatabaseTable.mkContext
    (Some (str "orders")) None (Some (str "id")) None None None
    (Some (str "QDTState"))
    [(str "initial.maxvalue.id", str "5")].

Definition fixture_context_unsupported : QueryDatabaseTable.ProcessContext :=
  QueryDatabaseTable.mkContext
    (Some (str "orders")) None (Some (str "id")) None None None
    (Some (str "QDTState"))
    [(str "initial.maxvalue.id", str "5"); (str "fetch.size", str "100")].

Definition fixture_context_two_columns : QueryDatabaseTable.ProcessContext :=
  QueryDatabaseTable.mkContext
    (Some (str "orders")) None (Some (str "id,updated")) None None None
    (Some (str "QDTState"))
    [(str "initial.maxvalue.id", str "5")].

Definition fixture_processor : QueryDatabaseTable.t :=
  QueryDatabaseTable.mk [] [] [] [] [] [] 0 None [].

Definition fixture_processor_recorded : QueryDatabaseTable.t :=
  QueryDatabaseTable.mk (str "orders") [] (str "id,updated")
    [str "id"; str "updated"] [] [] 0 None fixture_mapState.

Definition fixture_processor_where : QueryDatabaseTable.t :=
  QueryDatabaseTable.mk (str "orders") [] [] [] (str "x=1") [] 0 None [].

(** ** FlowFileRepository *)

Section Repository.

(** [FlowFileRecord::DeSerialize], from the record-format module: the
    record read from the bytes, or [None] when it returns false. *)
Variable DeSerialize : string -> option FlowFileRecord.

(** The macro of FlowFileRepository.h, in milliseconds. *)
Variable FLOWFILE_REPOSITORY_RETRY_INTERVAL_INCREMENTS : Z.

(** ** ExecuteWithRetry *)

(** The [for (int i=0; i<3; ++i)] loop, [n] attempts left. *)
Fixpoint retry_loop (n : nat)
    (operation : FlowFileRepository -> Status * FlowFileRepository)
    (waitTime : Z) (w : FlowFileRepository) : bool * FlowFileRepository :=
  match n with
  | O => (false, w)
  | S n' =>
      let (status, w1) := operation w in
      if ok status then (true, w1)
      else
        let waitTime := wrap_int (waitTime + FLOWFILE_REPOSITORY_RETRY_INTERVAL_INCREMENTS) in
        retry_loop n' operation waitTime (call (sleep_for waitTime) w1)
  end.

Definition ExecuteWithRetry
    (operation : FlowFileRepository -> Status * FlowFileRepository)
    (w : FlowFileRepository) : bool * FlowFileRepository :=
  retry_loop 3 operation 0 w.

(** Linear backoff in the words of the specification: the state in which
    attempt number [k] (from 0) starts when every earlier attempt failed:
    after the [j]-th failure the thread has slept [j] increments. *)
Fixpoint before_attempt
    (operation : FlowFileRepository -> Status * FlowFileRepository)
    (k : nat) (w : FlowFileRepository) : FlowFileRepository :=
  match k with
  | O => w
  | S j =>
      call (sleep_for (Z.of_nat (S j) * FLOWFILE_REPOSITORY_RETRY_INTERVAL_INCREMENTS))
           (snd (operation (before_attempt operation j w)))
  end.

Definition attempt_ok
    (operation : FlowFileRepository -> Status * FlowFileRepository)
    (k : nat) (w : FlowFileRepository) : bool :=
  ok (fst (operation (before_attempt operation k w))).

(** ** flush *)

(** The [while (keys_to_delete.size_approx() > 0)] loop over the queue
    [q]: every dequeued key is pushed on [keystrings], and a [Slice] of it
    on [keys].  A [Slice] is modelled by the string it points to: for a
    record identifier without NUL, in a node that is still there,
    [keys[i].data()] reads the whole key back. *)
Fixpoint drain (q keystrings keys : list string) : list string * list string :=
  match q with
  | [] => (keystrings, keys)
  | key :: q' => drain q' (keystrings ++ [key]) (keys ++ [key])
  end.

(** One iteration of the loop over [keys], [values] and [multistatus];
    the locals it updates are [keystrings], [purgeList] and [batch].
    [keystrings.remove(keys[i].data())] is taken by value: that is what
    the call does as long as the node under [keys[i]] is still in
    [keystrings] and the key holds no NUL.  [flush_step_nodes] below
    follows the nodes. *)
Definition flush_step
    (acc : list string * list FlowFileRecord * list string)
    (x : string * (string * Status))
  : list string * list FlowFileRecord * list string :=
  let '(keystrings, purgeList, batch) := acc in
  let '(key, (value, status)) := x in
  if negb (ok status) then (list_remove key keystrings, purgeList, batch)
  else
    let purgeList :=
      match DeSerialize value with
      | Some eventRead => purgeList ++ [eventRead]
      | None => purgeList
      end in
    (keystrings, purgeList, batch ++ [key]).

Definition release_if_orphaned (w : FlowFileRepository) (ffr : FlowFileRecord)
  : FlowFileRepository :=
  match getResourceClaim ffr with
  | Some claim => call (removeIfOrphaned claim) w
  | None => w
  end.

Definition flush (w : FlowFileRepository) : FlowFileRepository :=
  let '(keystrings, keys) := drain (keys_to_delete w) [] [] in
  let w := with_keys_to_delete [] w in
  let '(multistatus, values) := MultiGet w keys in
  let '(keystrings, purgeList, batch) :=
    fold_left flush_step (combine keys (combine values multistatus))
              (keystrings, [], []) in
  let '(committed, w) := ExecuteWithRetry (Write batch) w in
  if negb committed then
    fold_left (fun w key => enqueue key w) keystrings w
  else if content_repo_ w then fold_left release_if_orphaned purgeList w
  else w.

(** *** The nodes of [keystrings]

    [keys[i]] is a [rocksdb::Slice]: it does not hold the key, it points
    into the node of [keystrings] that does.  Every iteration reads that
    node ([keys[i].data()] when the read failed, [batch.Delete(keys[i])]
    otherwise), and [keystrings.remove(keys[i].data())] erases every node
    equal to the C string found there.  Nodes of equal value are erased
    together and none is added during the loop, so the node under
    [keys[i]] is gone exactly when no node of [keystrings] holds that key
    any more; the iteration then reads freed memory, which is [None]. *)
Definition flush_step_nodes
    (acc : option (list string * list FlowFileRecord * list string))
    (x : string * (string * Status))
  : option (list string * list FlowFileRecord * list string) :=
  match acc with
  | None => None
  | Some (keystrings, purgeList, batch) =>
      let '(key, (value, status)) := x in
      if negb (mem key keystrings) then None
      else if negb (ok status) then
        Some (list_remove (c_str key) keystrings, purgeList, batch)
      else
        let purgeList :=
          match DeSerialize value with
          | Some eventRead => purgeList ++ [eventRead]
          | None => purgeList
          end in
        Some (keystrings, purgeList, batch ++ [key])
  end.

(** [flush] on the nodes: [None] when an iteration reads a node that was
    erased. *)
Definition flush_nodes (w : FlowFileRepository) : option FlowFileRepository :=
  let '(keystrings, keys) := drain (keys_to_delete w) [] [] in
  let w := with_keys_to_delete [] w in
  let '(multistatus, values) := MultiGet w keys in
  match fold_left flush_step_nodes (combine keys (combine values multistatus))
                  (Some (keystrings, [], [])) with
  | None => None
  | Some (keystrings, purgeList, batch) =>
      let '(committed, w) := ExecuteWithRetry (Write batch) w in
      Some (if negb committed then
              fold_left (fun w key => enqueue key w) keystrings w
            else if content_repo_ w then fold_left release_if_orphaned purgeList w
            else w)
  end.

(** ** prune_stored_flowfiles *)

(** [rocksdb::DB::OpenForReadOnly] on the checkpoint directory: the
    snapshot when the status is ok. *)
Definition OpenForReadOnly (w : FlowFileRepository) : option Store :=
  checkpoint_directory w.

(** The [else] branch of the recovery loop: release the claim, schedule
    the key.  [content_repo_] is dereferenced unchecked: [None] is the
    null dereference. *)
Definition reclaim (key : string) (eventRead : FlowFileRecord)
    (w : FlowFileRepository) : option FlowFileRepository :=
  w1 ← (if (0 <? String.length (getContentFullPath eventRead))%nat then
          match getResourceClaim eventRead with
          | Some claim =>
              if content_repo_ w then Some (call (content_remove claim) w) else None
          | None => Some w
          end
        else Some w);
  Some (enqueue key w1).

(** The body of the loop over the iterator. *)
Definition prune_record (corrupt_checkpoint : bool) (w : FlowFileRepository)
    (entry : string * string) : option FlowFileRepository :=
  let (key, value) := entry in
  match DeSerialize value with
  | Some eventRead =>
      match connectionMap w !! getConnectionUuid eventRead with
      | Some conn =>
          if negb corrupt_checkpoint then
            Some (call (Connection_put conn (setStoredToRepository true eventRead)) w)
          else reclaim key eventRead w
      | None => reclaim key eventRead w
      end
  | None => Some (enqueue key w)
  end.

Fixpoint prune_loop (corrupt_checkpoint : bool) (it : Store)
    (w : FlowFileRepository) : option FlowFileRepository :=
  match it with
  | [] => Some w
  | entry :: it' =>
      w' ← prune_record corrupt_checkpoint w entry;
      prune_loop corrupt_checkpoint it' w'
  end.

Definition prune_stored_flowfiles (w : FlowFileRepository)
  : option FlowFileRepository :=
  let corrupt_checkpoint := false in
  if checkpoint_ w then
    let stored_database_ :=
      match OpenForReadOnly w with
      | Some snapshot => snapshot
      | None => db_ w
      end in
    prune_loop corrupt_checkpoint stored_database_ w
  else Some w.

(** ** Checkpoint *)

Definition need_checkpoint (w : FlowFileRepository) : bool :=
  match db_ w with
  | [] => false
  | _ :: _ => true
  end.

Definition initialize_repository (w : FlowFileRepository) : FlowFileRepository :=
  if negb (need_checkpoint w) then w
  else
    let rc := delete_dir_rc w in
    let w := call (delete_dir rc)
                  (if 0 <=? rc then with_checkpoint_directory None w else w) in
    if 0 <=? rc then
      let st := Checkpoint_Create_st w in
      let w := call (Checkpoint_Create st) w in
      if ok st then
        let st := CreateCheckpoint_st w in
        let w := call (CreateCheckpoint st) w in
        if ok st then
          with_checkpoint_ true (with_checkpoint_directory (Some (db_ w)) w)
        else w
      else w
    else w.

Definition loadComponent (content_repo : bool) (w : FlowFileRepository)
  : FlowFileRepository :=
  initialize_repository (with_content_repo_ content_repo w).

(** ** run *)

(** The member [purge_period_], in milliseconds. *)
Variable purge_period_ : Z.

(** The [while (running_)] loop.  [running_] is written by other
    threads: the script lists what each read of it returns, and a script
    that has run out reads false.  [printStats] only reads properties of
    the engine and logs them, so it leaves no mark here. *)
Fixpoint run_loop (running_ : list bool) (w : FlowFileRepository)
  : FlowFileRepository :=
  match running_ with
  | true :: rest => run_loop rest (flush (call (sleep_for purge_period_) w))
  | _ => w
  end.

(** [run]: the first read of [running_] guards the recovery pass, the
    following ones the loop. *)
Definition run (running_ : list bool) (w : FlowFileRepository)
  : option FlowFileRepository :=
  match running_ with
  | true :: rest =>
      w' ← prune_stored_flowfiles w;
      Some (run_loop rest w')
  | false :: rest => Some (run_loop rest w)
  | [] => Some w
  end.

(** ** Vocabulary of the properties *)

(** What [MultiGet] answers for one key, as the loop of [flush] reads it. *)
Definition read_ok (w : FlowFileRepository) (key : string) : bool :=
  ok (fst (db_Get w key)).

(** A Delete Queue on which no iteration of [flush] meets an erased node
    and [keystrings.remove] erases the nodes of its own key only: no key
    whose read fails holds a NUL, and none is queued twice. *)
Definition keys_intact (w : FlowFileRepository) : Prop :=
  (forall key, key ∈ keys_to_delete w -> read_ok w key = false -> c_str key = key)
  /\ NoDup (List.filter (fun key => negb (read_ok w key)) (keys_to_delete w)).

(** The record [flush] remembers for [key]: read and deserialized. *)
Definition purge_record (w : FlowFileRepository) (key : string)
  : option FlowFileRecord :=
  if read_ok w key then DeSerialize (snd (db_Get w key)) else None.

(** The store a recovery pass iterates. *)
Definition stored_database_ (w : FlowFileRepository) : Store :=
  match OpenForReadOnly w with
  | Some snapshot => snapshot
  | None => db_ w
  end.

(** The events of a retry of [Write batch] that has not succeeded yet:
    failed writes of that batch and the sleeps after them. *)
Definition retry_noise (batch : list string) (e : Event) : Prop :=
  match e with
  | db_Write b st => b = batch /\ ok st = false
  | sleep_for _ => True
  | _ => False
  end.

(** Calls on the content repository. *)
Definition is_content_call (e : Event) : bool :=
  match e with
  | removeIfOrphaned _ | content_remove _ => true
  | _ => false
  end.

(** Deliveries into a connection's queue. *)
Definition is_delivery (e : Event) : bool :=
  match e with
  | Connection_put _ _ => true
  | _ => false
  end.

(** A stored entry that the recovery pass can hand to a queue: it
    deserializes and its connection is registered. *)
Definition deliverable (cm : gmap string Connectable) (entry : string * string)
  : bool :=
  match DeSerialize (snd entry) with
  | Some eventRead => bool_decide (is_Some (cm !! getConnectionUuid eventRead))
  | None => false
  end.

(** What the reclaiming branch of the recovery pass asks of the content
    repository for a record. *)
Definition reclaim_calls (eventRead : FlowFileRecord) : list Event :=
  if (0 <? String.length (getContentFullPath eventRead))%nat then
    match getResourceClaim eventRead with
    | Some claim => [content_remove claim]
    | None => []
    end
  else [].

(** The delivery the recovery pass makes for a stored entry, if any. *)
Definition delivery_of (cm : gmap string Connectable) (entry : string * string)
  : option Event :=
  eventRead ← DeSerialize (snd entry);
  conn ← cm !! getConnectionUuid eventRead;
  Some (Connection_put conn (setStoredToRepository true eventRead)).

(** A stored entry for which the recovery pass reaches
    [content_repo_->remove]: it deserializes, its connection is not
    registered, its content path is not empty and it holds a claim. *)
Definition needs_release (cm : gmap string Connectable) (entry : string * string)
  : bool :=
  match DeSerialize (snd entry) with
  | Some eventRead =>
      match cm !! getConnectionUuid eventRead, getResourceClaim eventRead with
      | None, Some _ => (0 <? String.length (getContentFullPath eventRead))%nat
      | _, _ => false
      end
  | None => false
  end.

(** Calls of [db_->Write]. *)
Definition is_db_Write (e : Event) : bool :=
  match e with
  | db_Write _ _ => true
  | _ => false
  end.

(** The effect of a stretch of the recovery pass: the store and the
    surroundings as they were, keys appended to the Delete Queue, and
    calls that are deliveries or direct releases. *)
Definition recovery_effect (w w' : FlowFileRepository) : Prop :=
  db_ w' = db_ w
  /\ content_repo_ w' = content_repo_ w
  /\ checkpoint_ w' = checkpoint_ w
  /\ connectionMap w' = connectionMap w
  /\ checkpoint_directory w' = checkpoint_directory w
  /\ read_faults w' = read_faults w
  /\ write_faults w' = write_faults w
  /\ exists scheduled l,
       keys_to_delete w' = keys_to_delete w ++ scheduled
       /\ trace w' = trace w ++ l
       /\ forall e, e ∈ l -> is_delivery e = true \/ exists claim, e = content_remove claim.

(** The recovery pass in the words of C10 as it is written: the store as
    it was, and nothing done but enqueuing keys and delivering records. *)
Definition only_enqueues_and_delivers (w w' : FlowFileRepository) : Prop :=
  db_ w' = db_ w
  /\ exists scheduled l,
       keys_to_delete w' = keys_to_delete w ++ scheduled
       /\ trace w' = trace w ++ l
       /\ forall e, e ∈ l -> is_delivery e = true.

(** The members and the scripted answers that neither [flush] nor the
    recovery pass touches. *)
Definition same_surroundings (w w' : FlowFileRepository) : Prop :=
  content_repo_ w' = content_repo_ w
  /\ checkpoint_ w' = checkpoint_ w
  /\ connectionMap w' = connectionMap w
  /\ checkpoint_directory w' = checkpoint_directory w
  /\ read_faults w' = read_faults w.

(** ** A fixture

    Four stored values: [v1] belongs to the registered queue [C], [v2]
    and [v3] to the unregistered queue [D] ([v3] holds a claim but has no
    content path), and [v4] does not deserialize. *)

Definition fixture_DeSerialize (bytes : string) : option FlowFileRecord :=
  if String.eqb bytes "v1" then
    Some (mkFlowFileRecord "K1" "C" "/content/1" (Some "claim1") false)
  else if String.eqb bytes "v2" then
    Some (mkFlowFileRecord "K2" "D" "/content/2" (Some "claim2") false)
  else if String.eqb bytes "v3" then
    Some (mkFlowFileRecord "K3" "D" "" (Some "claim3") false)
  else None.

Definition fixture_store : Store :=
  [("K1", "v1"); ("K2", "v2"); ("K3", "v3"); ("K4", "v4")].

Definition fixture : FlowFileRepository :=
  {| db_ := fixture_store;
     keys_to_delete := [];
     content_repo_ := true;
     checkpoint_ := true;
     connectionMap := {[ "C" := 7%nat ]};
     checkpoint_directory := Some fixture_store;
     read_faults := [];
     write_faults := [];
     delete_dir_rc := 0;
     Checkpoint_Create_st := OK;
     CreateCheckpoint_st := OK;
     trace := [] |}.

(** The fixture with four keys queued for deletion; [K9] is not in the
    store, so its read answers NotFound. *)
Definition fixture_queued : FlowFileRepository :=
  with_keys_to_delete ["K1"; "K4"; "K9"; "K2"] fixture.

(** The same, with an engine that fails the next three writes. *)
Definition fixture_failing : FlowFileRepository :=
  with_write_faults [true; true; true] fixture_queued.

(** The fixture with the missing key [K9] queued twice. *)
Definition fixture_twice : FlowFileRepository :=
  with_keys_to_delete ["K1"; "K9"; "K2"; "K9"] fixture.

(** The failing fixture with [K1] queued before a key the store does not
    hold, whose C string is [K1]. *)
Definition fixture_nul : FlowFileRepository :=
  with_write_faults [true; true; true]
    (with_keys_to_delete ["K1"; String.append "K1" (String Ascii.zero "x")] fixture).

(** The fixture with two keys queued that the store does not hold. *)
Definition fixture_stale : FlowFileRepository :=
  with_keys_to_delete ["K8"; "K9"] fixture.

(** The fixture before initialization, with a file system on which
    [delete_dir] fails. *)
Definition fixture_uninitialized : FlowFileRepository :=
  {| db_ := fixture_store;
     keys_to_delete := [];
     content_repo_ := true;
     checkpoint_ := false;
     connectionMap := {[ "C" := 7%nat ]};
     checkpoint_directory := Some [("K0", "v0")];
     read_faults := [];
     write_faults := [];
     delete_dir_rc := -1;
     Checkpoint_Create_st := OK;
     CreateCheckpoint_st := OK;
     trace := [] |}.

(** The fixture with a checkpoint object whose directory cannot be opened. *)
Definition fixture_fallback : FlowFileRepository :=
  with_checkpoint_directory None fixture.

(** ** Properties of the retry wrapper *)

Lemma wrap_int_small z : - 2 ^ 31 <= z < 2 ^ 31 -> wrap_int z = z.
Proof.
  intros Hz. unfold wrap_int.
  rewrite Z.mod_small by lia. lia.
Qed.

Lemma ExecuteWithRetry_unfold operation w :
  0 <= FLOWFILE_REPOSITORY_RETRY_INTERVAL_INCREMENTS ->
  3 * FLOWFILE_REPOSITORY_RETRY_INTERVAL_INCREMENTS <= INT_MAX ->
  ExecuteWithRetry operation w =
    if attempt_ok operation 0 w then (true, snd (operation (before_attempt operation 0 w)))
    else if attempt_ok operation 1 w then (true, snd (operation (before_attempt operation 1 w)))
    else if attempt_ok operation 2 w then (true, snd (operation (before_attempt operation 2 w)))
    else (false, before_attempt operation 3 w).
Proof.
  intros Hpos Hmax. unfold INT_MAX in Hmax.
  set (inc := FLOWFILE_REPOSITORY_RETRY_INTERVAL_INCREMENTS) in *.
  assert (W1 : wrap_int (0 + inc) = Z.of_nat 1 * inc)
    by (rewrite wrap_int_small; lia).
  assert (W2 : wrap_int (Z.of_nat 1 * inc + inc) = Z.of_nat 2 * inc)
    by (rewrite wrap_int_small; lia).
  assert (W3 : wrap_int (Z.of_nat 2 * inc + inc) = Z.of_nat 3 * inc)
    by (rewrite wrap_int_small; lia).
  unfold ExecuteWithRetry, attempt_ok.
  cbn [retry_loop before_attempt]. fold inc.
  destruct (operation w) as [s0 w0]; cbn [fst snd].
  destruct (ok s0); [reflexivity|].
  rewrite W1.
  destruct (operation (call (sleep_for (Z.of_nat 1 * inc)) w0)) as [s1 w1]; cbn [fst snd].
  destruct (ok s1); [reflexivity|].
  rewrite W2.
  destruct (operation (call (sleep_for (Z.of_nat 2 * inc)) w1)) as [s2 w2]; cbn [fst snd].
  destruct (ok s2); [reflexivity|].
  rewrite W3. reflexivity.
Qed.

(** C8: with an increment that fits three times in an [int],
    [ExecuteWithRetry] stops at the first attempt that succeeds and
    returns true in the state that attempt left (attempt [k < 3] is then
    the last call of the operation, after [k] failed ones and [k] sleeps
    of 1, 2, ... increments); after three failed attempts it returns
    false, the operation having run exactly three times. *)
Theorem ExecuteWithRetry_linear_backoff operation w :
  0 <= FLOWFILE_REPOSITORY_RETRY_INTERVAL_INCREMENTS ->
  3 * FLOWFILE_REPOSITORY_RETRY_INTERVAL_INCREMENTS <= INT_MAX ->
  (forall k : nat, (k < 3)%nat ->
     (forall j : nat, (j < k)%nat -> attempt_ok operation j w = false) ->
     attempt_ok operation k w = true ->
     ExecuteWithRetry operation w
       = (true, snd (operation (before_attempt operation k w))))
  /\ ((forall j : nat, (j < 3)%nat -> attempt_ok operation j w = false) ->
      ExecuteWithRetry operation w = (false, before_attempt operation 3 w))
  /\ (exists k : nat, (k <= 3)%nat
        /\ (forall j : nat, (j < k)%nat -> attempt_ok operation j w = false)
        /\ ((k < 3)%nat /\ attempt_ok operation k w = true
               /\ ExecuteWithRetry operation w
                    = (true, snd (operation (before_attempt operation k w)))
            \/ k = 3%nat
               /\ ExecuteWithRetry operation w
                    = (false, before_attempt operation 3 w))).
Proof.
  intros Hpos Hmax.
  pose proof (ExecuteWithRetry_unfold operation w Hpos Hmax) as E.
  split; [|split].
  - intros k Hk Hfail Hok.
    destruct k as [|[|[|k]]]; [| | |lia].
    + rewrite E, Hok. reflexivity.
    + rewrite E, (Hfail 0%nat), Hok by lia. reflexivity.
    + rewrite E, (Hfail 0%nat), (Hfail 1%nat), Hok by lia. reflexivity.
  - intros Hfail.
    rewrite E, (Hfail 0%nat), (Hfail 1%nat), (Hfail 2%nat) by lia. reflexivity.
  - destruct (attempt_ok operation 0 w) eqn:A0.
    { exists 0%nat. split; [lia|]. split; [intros j Hj; lia|]. left. auto with lia. }
    destruct (attempt_ok operation 1 w) eqn:A1.
    { exists 1%nat. split; [lia|]. split.
      - intros j Hj. assert (j = 0%nat) as -> by lia. exact A0.
      - left. auto with lia. }
    destruct (attempt_ok operation 2 w) eqn:A2.
    { exists 2%nat. split; [lia|]. split.
      - intros j Hj. destruct j as [|[|j]]; [exact A0|exact A1|lia].
      - left. auto with lia. }
    exists 3%nat. split; [lia|]. split.
    + intros j Hj. destruct j as [|[|[|j]]]; [exact A0|exact A1|exact A2|lia].
    + right. auto.
Qed.

(** ** The batched delete under retry *)

Lemma ExecuteWithRetry_Write batch w :
  same_surroundings w (snd (ExecuteWithRetry (Write batch) w))
  /\ keys_to_delete (snd (ExecuteWithRetry (Write batch) w)) = keys_to_delete w
  /\ (fst (ExecuteWithRetry (Write batch) w) = false
        <-> take 3 (write_faults w) = [true; true; true])
  /\ exists noise, Forall (retry_noise batch) noise
      /\ if fst (ExecuteWithRetry (Write batch) w) then
           db_ (snd (ExecuteWithRetry (Write batch) w)) = apply_batch batch (db_ w)
           /\ trace (snd (ExecuteWithRetry (Write batch) w))
                = trace w ++ noise ++ [db_Write batch OK]
         else
           db_ (snd (ExecuteWithRetry (Write batch) w)) = db_ w
           /\ trace (snd (ExecuteWithRetry (Write batch) w)) = trace w ++ noise.
Proof.
  unfold ExecuteWithRetry, same_surroundings.
  destruct w as [db q cr cp cm cd rf wf rc s1 s2 tr].
  destruct wf as [|[] [|[] [|[] wf]]]; cbn -[wrap_int].
  all: split; [tauto|].
  all: split; [reflexivity|].
  all: split; [split; intros E; first [reflexivity | discriminate E]|].
  all: let close := (split; [|split; [reflexivity|rewrite <- ?app_assoc; reflexivity]]) in
       first [ exists []; close | eexists [_; _]; close | eexists [_; _; _; _]; close
             | eexists [_; _; _; _; _; _]; close ].
  all: repeat first [apply List.Forall_nil | apply List.Forall_cons; [cbn; auto|]].
Qed.

(** ** The loops of flush *)

Lemma drain_spec q : forall keystrings keys,
  drain q keystrings keys = (keystrings ++ q, keys ++ q).
Proof.
  induction q as [|key q IH]; intros keystrings keys; cbn [drain].
  - rewrite !app_nil_r. reflexivity.
  - rewrite IH, <- !app_assoc. reflexivity.
Qed.

Lemma filter_all {A} (f : A -> bool) (l : list A) :
  (forall x, x ∈ l -> f x = true) -> List.filter f l = l.
Proof.
  induction l as [|a l IH]; intros H; cbn; [reflexivity|].
  rewrite (H a) by constructor.
  f_equal. apply IH. intros x Hx. apply H. by constructor.
Qed.

Lemma filter_twice {A} (f g : A -> bool) (l : list A) :
  List.filter f (List.filter g l) = List.filter (fun x => g x && f x) l.
Proof.
  induction l as [|a l IH]; cbn; [reflexivity|].
  destruct (g a); cbn; [destruct (f a)|]; rewrite IH; reflexivity.
Qed.

Lemma filter_agree {A} (f g : A -> bool) (l : list A) :
  (forall x, x ∈ l -> f x = g x) -> List.filter f l = List.filter g l.
Proof.
  induction l as [|a l IH]; intros H; cbn; [reflexivity|].
  rewrite (H a) by constructor.
  rewrite IH; [reflexivity|]. intros x Hx. apply H. by constructor.
Qed.

Lemma existsb_elem {A} (f : A -> bool) (l : list A) :
  existsb f l = true <-> exists x, x ∈ l /\ f x = true.
Proof.
  rewrite existsb_exists. split; intros (x & Hx & Hf); exists x; split; auto;
    by apply list_elem_of_In.
Qed.

Lemma mem_elem key l : mem key l = true <-> key ∈ l.
Proof.
  unfold mem. rewrite existsb_elem. split.
  - intros (x & Hx & E). apply String.eqb_eq in E. by subst.
  - intros H. exists key. split; [done|]. apply String.eqb_refl.
Qed.

(** The loop over the keys read: what it leaves in [keystrings],
    [purgeList] and [batch]. *)
Lemma flush_loop w keys : forall keystrings purgeList batch,
  fold_left flush_step
    (combine keys (combine (map (fun k => snd (db_Get w k)) keys)
                           (map (fun k => fst (db_Get w k)) keys)))
    (keystrings, purgeList, batch)
  = (List.filter
       (fun x => negb (existsb (fun k => String.eqb x k && negb (read_ok w k)) keys))
       keystrings,
     purgeList ++ omap (purge_record w) keys,
     batch ++ List.filter (read_ok w) keys).
Proof.
  induction keys as [|key keys IH]; intros keystrings purgeList batch.
  - cbn. rewrite !app_nil_r, filter_all; auto.
  - cbn [map combine fold_left flush_step omap list_omap List.filter existsb].
    unfold purge_record at 1. fold (read_ok w key).
    destruct (read_ok w key) eqn:R; cbn [negb]; rewrite IH.
    + apply (f_equal2 pair); [apply (f_equal2 pair)|].
      * apply filter_agree. intros x _. by rewrite andb_false_r.
      * destruct (DeSerialize (db_Get w key).2); [|reflexivity].
        by rewrite <- app_assoc.
      * by rewrite <- app_assoc.
    + apply (f_equal2 pair); [apply (f_equal2 pair)|]; [|reflexivity..].
      unfold list_remove. rewrite filter_twice.
      apply filter_agree. intros x _.
      rewrite andb_true_r, negb_orb. reflexivity.
Qed.

Lemma kept_keys w keys :
  List.filter
    (fun x => negb (existsb (fun k => String.eqb x k && negb (read_ok w k)) keys))
    keys
  = List.filter (read_ok w) keys.
Proof.
  apply filter_agree. intros x Hx.
  destruct (read_ok w x) eqn:R.
  - apply negb_true_iff, not_true_iff_false. rewrite existsb_elem.
    intros (k & _ & E). apply andb_true_iff in E as [E1 E2].
    apply String.eqb_eq in E1. subst k. by rewrite R in E2.
  - apply negb_false_iff, existsb_elem. exists x. split; [done|].
    by rewrite String.eqb_refl, R.
Qed.

Lemma flush_unfold w :
  flush w =
    let kept := List.filter (read_ok w) (keys_to_delete w) in
    let r := ExecuteWithRetry (Write kept) (with_keys_to_delete [] w) in
    if negb (fst r) then fold_left (fun w key => enqueue key w) kept (snd r)
    else if content_repo_ (snd r) then
      fold_left release_if_orphaned (omap (purge_record w) (keys_to_delete w)) (snd r)
    else snd r.
Proof.
  unfold flush. rewrite drain_spec. cbn [app].
  unfold MultiGet.
  change (db_Get (with_keys_to_delete [] w)) with (db_Get w).
  rewrite flush_loop, kept_keys. cbn [app].
  destruct (ExecuteWithRetry _ _) as [committed w1]. reflexivity.
Qed.

Lemma fold_enqueue keys : forall w,
  fold_left (fun w key => enqueue key w) keys w
  = with_keys_to_delete (keys_to_delete w ++ keys) w.
Proof.
  induction keys as [|key keys IH]; intros w; cbn [fold_left].
  - destruct w. unfold with_keys_to_delete. cbn. by rewrite app_nil_r.
  - rewrite IH. unfold enqueue, with_keys_to_delete. cbn.
    by rewrite <- app_assoc.
Qed.

Lemma fold_release purgeList : forall w,
  fold_left release_if_orphaned purgeList w
  = mkRepo (db_ w) (keys_to_delete w) (content_repo_ w) (checkpoint_ w)
      (connectionMap w) (checkpoint_directory w) (read_faults w) (write_faults w)
      (delete_dir_rc w) (Checkpoint_Create_st w) (CreateCheckpoint_st w)
      (trace w ++ map removeIfOrphaned (omap getResourceClaim purgeList)).
Proof.
  induction purgeList as [|ffr purgeList IH]; intros w; cbn [fold_left].
  - destruct w. cbn. by rewrite app_nil_r.
  - rewrite IH. unfold release_if_orphaned. cbn [omap list_omap].
    destruct (getResourceClaim ffr); cbn; [|reflexivity].
    by rewrite <- app_assoc.
Qed.

(** ** The two ways a flush ends *)

(** The batched delete failed three times. *)
Lemma flush_abort w :
  take 3 (write_faults w) = [true; true; true] ->
  keys_to_delete (flush w) = List.filter (read_ok w) (keys_to_delete w)
  /\ db_ (flush w) = db_ w
  /\ same_surroundings w (flush w)
  /\ exists noise,
      Forall (retry_noise (List.filter (read_ok w) (keys_to_delete w))) noise
      /\ trace (flush w) = trace w ++ noise.
Proof.
  intros F. rewrite flush_unfold. cbn zeta.
  destruct (ExecuteWithRetry_Write (List.filter (read_ok w) (keys_to_delete w))
              (with_keys_to_delete [] w)) as (S & Q & C & noise & N & T).
  apply C in F. clear C.
  destruct (ExecuteWithRetry _ _) as [committed w1].
  cbn [fst snd] in *. subst committed. cbn [negb].
  rewrite fold_enqueue. destruct T as [T1 T2].
  destruct S as (S1 & S2 & S3 & S4 & S5).
  unfold same_surroundings. cbn in *. rewrite Q. cbn.
  repeat split; auto. exists noise. auto.
Qed.

(** The batched delete was committed, at the first, second or third attempt. *)
Lemma flush_commit w :
  take 3 (write_faults w) <> [true; true; true] ->
  keys_to_delete (flush w) = []
  /\ db_ (flush w) = apply_batch (List.filter (read_ok w) (keys_to_delete w)) (db_ w)
  /\ same_surroundings w (flush w)
  /\ exists noise,
      Forall (retry_noise (List.filter (read_ok w) (keys_to_delete w))) noise
      /\ trace (flush w)
          = trace w ++ noise
              ++ [db_Write (List.filter (read_ok w) (keys_to_delete w)) OK]
              ++ (if content_repo_ w then
                    map removeIfOrphaned
                      (omap getResourceClaim (omap (purge_record w) (keys_to_delete w)))
                  else []).
Proof.
  intros F. rewrite flush_unfold. cbn zeta.
  destruct (ExecuteWithRetry_Write (List.filter (read_ok w) (keys_to_delete w))
              (with_keys_to_delete [] w)) as (S & Q & C & noise & N & T).
  destruct (ExecuteWithRetry _ _) as [committed w1].
  cbn [fst snd] in *. destruct committed.
  2: { exfalso. apply F. by apply C. }
  cbn [negb]. destruct T as [T1 T2]. destruct S as (S1 & S2 & S3 & S4 & S5).
  unfold same_surroundings. cbn in S1, S2, S3, S4, S5, Q, T1, T2.
  rewrite S1.
  destruct (content_repo_ w) eqn:CR.
  - rewrite fold_release. cbn. rewrite T2, <- !app_assoc.
    repeat split; auto. exists noise. auto.
  - rewrite app_nil_r. repeat split; auto. exists noise. auto.
Qed.

Lemma elem_of_Lfilter {A} (f : A -> bool) (l : list A) (x : A) :
  x ∈ List.filter f l <-> x ∈ l /\ f x = true.
Proof. rewrite !list_elem_of_In. apply filter_In. Qed.

Lemma retry_noise_quiet batch noise e :
  Forall (retry_noise batch) noise -> e ∈ noise ->
  is_content_call e = false /\ is_delivery e = false
  /\ (forall b st, e = db_Write b st -> b = batch /\ ok st = false).
Proof.
  intros N He. rewrite List.Forall_forall in N.
  apply list_elem_of_In, N in He.
  destruct e; cbn in He; try contradiction; (split; [done|split; [done|]]);
    intros b st' [=]; subst; auto.
Qed.

Lemma db_lookup_apply_batch_other key batch s :
  key ∉ batch -> db_lookup key (apply_batch batch s) = db_lookup key s.
Proof.
  intros Hk. unfold apply_batch.
  induction s as [|[k v] s IH]; cbn [List.filter db_lookup fst]; [reflexivity|].
  destruct (mem k batch) eqn:M; cbn [negb db_lookup].
  - destruct (String.eqb key k) eqn:E; [|exact IH].
    apply String.eqb_eq in E. subst k. apply mem_elem in M. contradiction.
  - rewrite IH. reflexivity.
Qed.

Lemma db_lookup_apply_batch_in key batch s :
  key ∈ batch -> db_lookup key (apply_batch batch s) = None.
Proof.
  intros Hk. unfold apply_batch.
  induction s as [|[k v] s IH]; cbn [List.filter db_lookup fst]; [reflexivity|].
  destruct (mem k batch) eqn:M; cbn [negb db_lookup]; [exact IH|].
  destruct (String.eqb key k) eqn:E; [|exact IH].
  apply String.eqb_eq in E. subst k. apply mem_elem in Hk. congruence.
Qed.


Lemma purge_record_elem w (keys : list string) eventRead :
  eventRead ∈ omap (purge_record w) keys ->
  exists key, key ∈ keys /\ fst (db_Get w key) = OK
    /\ DeSerialize (snd (db_Get w key)) = Some eventRead.
Proof.
  intros (key & Hkey & P)%list_elem_of_omap. exists key. split; [done|].
  unfold purge_record, read_ok in P.
  destruct (fst (db_Get w key)); cbn in P; try discriminate. auto.
Qed.

(** ** Claims about flush *)

(** C1: flush only appends calls to the trace; among them every
    [removeIfOrphaned] comes after a [Write] of this cycle's batch that
    returned ok, and is for the claim of a record read and deserialized
    from a key of that batch; when the batched delete fails three times,
    flush makes no call on the content repository at all. *)
Theorem flush_releases_only_after_commit w :
  (exists l, trace (flush w) = trace w ++ l)
  /\ (forall pre claim post,
     trace (flush w) = trace w ++ pre ++ removeIfOrphaned claim :: post ->
     exists batch key eventRead,
       db_Write batch OK ∈ pre
       /\ key ∈ batch
       /\ key ∈ keys_to_delete w
       /\ fst (db_Get w key) = OK
       /\ DeSerialize (snd (db_Get w key)) = Some eventRead
       /\ getResourceClaim eventRead = Some claim)
  /\ (take 3 (write_faults w) = [true; true; true] ->
      exists l, trace (flush w) = trace w ++ l
        /\ forall e, e ∈ l -> is_content_call e = false).
Proof.
  split; [|split].
  - destruct (decide (take 3 (write_faults w) = [true; true; true])) as [F|F].
    + destruct (flush_abort w F) as (_ & _ & _ & noise & _ & T). eauto.
    + destruct (flush_commit w F) as (_ & _ & _ & noise & _ & T). eauto.
  - intros pre claim post E.
    destruct (decide (take 3 (write_faults w) = [true; true; true])) as [F|F].
    + destruct (flush_abort w F) as (_ & _ & _ & noise & N & T).
      rewrite T in E. apply app_inv_head in E. subst noise.
      assert (H : removeIfOrphaned claim ∈ pre ++ removeIfOrphaned claim :: post)
        by (apply elem_of_app; right; constructor).
      apply (retry_noise_quiet _ _ _ N) in H as [H _]. discriminate H.
    + destruct (flush_commit w F) as (_ & _ & _ & noise & N & T).
      rewrite T in E. apply app_inv_head in E.
      set (batch := List.filter (read_ok w) (keys_to_delete w)) in *.
      set (released := if content_repo_ w then _ else _) in E.
      assert (R : forall e, e ∈ released -> exists c eventRead,
                    e = removeIfOrphaned c
                    /\ eventRead ∈ omap (purge_record w) (keys_to_delete w)
                    /\ getResourceClaim eventRead = Some c).
      { subst released. intros e He. destruct (content_repo_ w).
        - apply list_elem_of_In, in_map_iff in He as (c & <- & Hc).
          apply list_elem_of_In, list_elem_of_omap in Hc as (r & Hr & Hc).
          eauto.
        - inversion He. }
      rewrite app_assoc in E. symmetry in E.
      apply app_eq_app in E as [l [[E1 E2]|[E1 E2]]].
      * (* the release lies in [released] *)
        destruct (R (removeIfOrphaned claim)) as (c & r & [= <-] & Hr & Hc).
        { rewrite E2. apply elem_of_app. right. constructor. }
        apply purge_record_elem in Hr as (key & Hkey & G & D).
        exists batch, key, r. repeat split; auto.
        -- rewrite E1. apply elem_of_app. left. apply elem_of_app. right. constructor.
        -- apply elem_of_Lfilter. split; [done|]. unfold read_ok. by rewrite G.
      * (* the release would lie among the retries or be the write itself *)
        destruct l as [|e l].
        -- rewrite app_nil_r in E1. cbn in E2.
           destruct (R (removeIfOrphaned claim)) as (c & r & [= <-] & Hr & Hc).
           { rewrite <- E2. constructor. }
           apply purge_record_elem in Hr as (key & Hkey & G & D).
           exists batch, key, r. repeat split; auto.
           ++ rewrite <- E1. apply elem_of_app. right. constructor.
           ++ apply elem_of_Lfilter. split; [done|]. unfold read_ok. by rewrite G.
        -- exfalso. cbn in E2. injection E2 as <- _.
           assert (H : removeIfOrphaned claim ∈ noise ++ [db_Write batch OK]).
           { rewrite E1. apply elem_of_app. right. constructor. }
           apply elem_of_app in H as [H|H].
           ++ apply (retry_noise_quiet _ _ _ N) in H as [H _]. discriminate H.
           ++ apply list_elem_of_singleton in H. discriminate H.
  - intros F. destruct (flush_abort w F) as (_ & _ & _ & noise & N & T).
    exists noise. split; [exact T|].
    intros e He. by apply (retry_noise_quiet _ _ _ N) in He as [H _].
Qed.



(** C9: with an empty Delete Queue, flush leaves the store as it was and
    the queue empty, makes no call on the content repository, and every
    batch it hands to [Write] is empty. *)
Theorem flush_empty_queue w :
  keys_to_delete w = [] ->
  db_ (flush w) = db_ w
  /\ keys_to_delete (flush w) = []
  /\ exists l, trace (flush w) = trace w ++ l
       /\ (forall e, e ∈ l -> is_content_call e = false)
       /\ (forall batch st, db_Write batch st ∈ l -> batch = []).
Proof.
  intros Q.
  destruct (decide (take 3 (write_faults w) = [true; true; true])) as [F|F].
  - destruct (flush_abort w F) as (Q' & D & _ & noise & N & T).
    rewrite Q in *. cbn in Q', N.
    split; [exact D|]. split; [exact Q'|].
    exists noise. split; [exact T|]. split.
    + intros e He. by apply (retry_noise_quiet _ _ _ N) in He as [H _].
    + intros b st He. apply (retry_noise_quiet _ _ _ N) in He as (_ & _ & He).
      by destruct (He b st eq_refl).
  - destruct (flush_commit w F) as (Q' & D & _ & noise & N & T).
    rewrite Q in *. cbn in Q', D, N, T.
    assert (T' : trace (flush w) = trace w ++ noise ++ [db_Write [] OK]).
    { rewrite T. by destruct (content_repo_ w). }
    split; [|split; [exact Q'|]].
    + rewrite D. apply filter_all. auto.
    + eexists. split; [exact T'|]. split.
      * intros e [He|He]%elem_of_app.
        -- by apply (retry_noise_quiet _ _ _ N) in He as [H _].
        -- apply list_elem_of_singleton in He. by subst e.
      * intros b st [He|He]%elem_of_app.
        -- apply (retry_noise_quiet _ _ _ N) in He as (_ & _ & He).
           by destruct (He b st eq_refl).
        -- apply list_elem_of_singleton in He. by injection He as -> _.
Qed.

(** ** The recovery pass *)

Lemma recovery_effect_refl w : recovery_effect w w.
Proof.
  unfold recovery_effect. repeat split; try reflexivity.
  exists [], []. rewrite !app_nil_r. repeat split. intros e He. inversion He.
Qed.

Lemma recovery_effect_trans w1 w2 w3 :
  recovery_effect w1 w2 -> recovery_effect w2 w3 -> recovery_effect w1 w3.
Proof.
  unfold recovery_effect.
  intros (A1 & A2 & A3 & A4 & A5 & A6 & A7 & s1 & l1 & Q1 & T1 & H1)
         (B1 & B2 & B3 & B4 & B5 & B6 & B7 & s2 & l2 & Q2 & T2 & H2).
  repeat split; try congruence.
  exists (s1 ++ s2), (l1 ++ l2). rewrite !app_assoc, <- Q1, <- T1.
  repeat split; auto.
  intros e [He|He]%elem_of_app; auto.
Qed.

Lemma recovery_effect_enqueue key w : recovery_effect w (enqueue key w).
Proof.
  unfold recovery_effect. repeat split.
  exists [key], []. rewrite app_nil_r. repeat split. intros e He. inversion He.
Qed.

Lemma recovery_effect_call e w :
  is_delivery e = true \/ (exists claim, e = content_remove claim) ->
  recovery_effect w (call e w).
Proof.
  intros He. unfold recovery_effect. repeat split.
  exists [], [e]. rewrite app_nil_r. repeat split.
  intros e' ->%list_elem_of_singleton. exact He.
Qed.

(** The reclaiming branch: the calls of [reclaim_calls], then the key. *)
Lemma reclaim_spec key eventRead w :
  content_repo_ w = true ->
  reclaim key eventRead w
  = Some (enqueue key (fold_left (fun w e => call e w) (reclaim_calls eventRead) w)).
Proof.
  intros CR. unfold reclaim, reclaim_calls.
  destruct (0 <? String.length (getContentFullPath eventRead))%nat;
    [|reflexivity].
  destruct (getResourceClaim eventRead); [|reflexivity].
  rewrite CR. reflexivity.
Qed.

Lemma reclaim_effect key eventRead w w' :
  reclaim key eventRead w = Some w' -> recovery_effect w w'.
Proof.
  unfold reclaim.
  destruct (0 <? String.length (getContentFullPath eventRead))%nat.
  - destruct (getResourceClaim eventRead) as [claim|].
    + destruct (content_repo_ w); [|discriminate].
      cbn. intros [= <-].
      eapply recovery_effect_trans; [|apply recovery_effect_enqueue].
      apply recovery_effect_call. eauto.
    + cbn. intros [= <-]. apply recovery_effect_enqueue.
  - cbn. intros [= <-]. apply recovery_effect_enqueue.
Qed.

Lemma prune_record_effect b w entry w' :
  prune_record b w entry = Some w' -> recovery_effect w w'.
Proof.
  destruct entry as [key value]. unfold prune_record.
  destruct (DeSerialize value) as [eventRead|].
  - destruct (connectionMap w !! getConnectionUuid eventRead) as [conn|].
    + destruct b; cbn [negb].
      * apply reclaim_effect.
      * intros [= <-]. apply recovery_effect_call. by left.
    + apply reclaim_effect.
  - intros [= <-]. apply recovery_effect_enqueue.
Qed.

Lemma prune_loop_effect b it : forall w w',
  prune_loop b it w = Some w' -> recovery_effect w w'.
Proof.
  induction it as [|entry it IH]; intros w w'; cbn [prune_loop].
  - intros [= <-]. apply recovery_effect_refl.
  - destruct (prune_record b w entry) as [w1|] eqn:E; cbn; [|discriminate].
    intros H. eapply recovery_effect_trans.
    + eapply prune_record_effect, E.
    + by apply IH.
Qed.

Lemma prune_record_total b w entry :
  content_repo_ w = true -> is_Some (prune_record b w entry).
Proof.
  intros CR. destruct entry as [key value]. unfold prune_record.
  destruct (DeSerialize value) as [eventRead|]; [|done].
  destruct (connectionMap w !! getConnectionUuid eventRead) as [conn|].
  - destruct b; cbn [negb]; [|done]. by rewrite reclaim_spec.
  - by rewrite reclaim_spec.
Qed.

Lemma prune_loop_total b it : forall w,
  content_repo_ w = true -> is_Some (prune_loop b it w).
Proof.
  induction it as [|entry it IH]; intros w CR; cbn [prune_loop]; [done|].
  destruct (prune_record_total b w entry CR) as [w1 E]. rewrite E. cbn.
  apply IH. apply prune_record_effect in E as (_ & -> & _). exact CR.
Qed.

Lemma prune_loop_app b it1 it2 w :
  prune_loop b (it1 ++ it2) w = prune_loop b it1 w ≫= prune_loop b it2.
Proof.
  revert w. induction it1 as [|entry it1 IH]; intros w; cbn [app prune_loop].
  - reflexivity.
  - destruct (prune_record b w entry) as [w1|]; cbn; [apply IH|reflexivity].
Qed.

Lemma reclaim_queue key eventRead w w' :
  reclaim key eventRead w = Some w' ->
  keys_to_delete w' = keys_to_delete w ++ [key].
Proof.
  unfold reclaim.
  destruct (0 <? String.length (getContentFullPath eventRead))%nat;
    [destruct (getResourceClaim eventRead); [destruct (content_repo_ w)|]|];
    cbn; intros [= <-]; reflexivity.
Qed.

Lemma prune_record_queue w entry w' :
  prune_record false w entry = Some w' ->
  keys_to_delete w'
  = keys_to_delete w
      ++ (if deliverable (connectionMap w) entry then [] else [fst entry]).
Proof.
  destruct entry as [key value]. unfold prune_record, deliverable. cbn [fst snd negb].
  destruct (DeSerialize value) as [eventRead|].
  - destruct (connectionMap w !! getConnectionUuid eventRead) as [conn|] eqn:L.
    + intros [= <-]. rewrite bool_decide_eq_true_2 by eauto.
      cbn. by rewrite app_nil_r.
    + rewrite bool_decide_eq_false_2 by (intros [? [=]]).
      apply reclaim_queue.
  - intros [= <-]. reflexivity.
Qed.

(** The keys a pass that is not flagged schedules: those of the entries
    it cannot deliver, in iteration order. *)
Lemma prune_loop_queue it : forall w w',
  prune_loop false it w = Some w' ->
  keys_to_delete w'
  = keys_to_delete w
      ++ map fst (List.filter (fun entry => negb (deliverable (connectionMap w) entry)) it).
Proof.
  induction it as [|entry it IH]; intros w w'; cbn [prune_loop].
  - intros [= <-]. cbn. by rewrite app_nil_r.
  - destruct (prune_record false w entry) as [w1|] eqn:E; cbn [mbind option_bind];
      [|discriminate].
    intros H. rewrite (IH _ _ H), (prune_record_queue _ _ _ E).
    pose proof (prune_record_effect _ _ _ _ E) as (_ & _ & _ & CM & _).
    rewrite CM. cbn [List.filter].
    destruct (deliverable (connectionMap w) entry); cbn [negb map app].
    + by rewrite app_nil_r.
    + by rewrite <- app_assoc.
Qed.

Lemma fold_call l : forall w,
  trace (fold_left (fun w e => call e w) l w) = trace w ++ l
  /\ keys_to_delete (fold_left (fun w e => call e w) l w) = keys_to_delete w.
Proof.
  induction l as [|e l IH]; intros w; cbn [fold_left].
  - by rewrite app_nil_r.
  - destruct (IH (call e w)) as [-> ->]. cbn. by rewrite <- app_assoc.
Qed.

(** The pass never sets its flag: it is the loop with
    [corrupt_checkpoint = false] over the store that could be opened. *)
Lemma prune_stored_flowfiles_unfold w :
  prune_stored_flowfiles w
  = if checkpoint_ w then prune_loop false (stored_database_ w) w else Some w.
Proof. reflexivity. Qed.

(** When the checkpoint directory cannot be opened the pass iterates the
    live store, still with [corrupt_checkpoint = false]. *)
Lemma prune_fallback_unflagged w :
  checkpoint_ w = true -> OpenForReadOnly w = None ->
  prune_stored_flowfiles w = prune_loop false (db_ w) w.
Proof.
  intros CP O. unfold prune_stored_flowfiles. by rewrite CP, O.
Qed.

(** One iteration inside a whole pass. *)
Lemma prune_loop_split b it1 entry it2 w w' :
  prune_loop b (it1 ++ entry :: it2) w = Some w' ->
  exists w1 w2,
    prune_loop b it1 w = Some w1
    /\ prune_record b w1 entry = Some w2
    /\ prune_loop b it2 w2 = Some w'.
Proof.
  rewrite prune_loop_app.
  destruct (prune_loop b it1 w) as [w1|]; cbn [mbind option_bind prune_loop];
    [|discriminate].
  destruct (prune_record b w1 entry) as [w2|] eqn:E; cbn [mbind option_bind];
    [|discriminate].
  intros H. exists w1, w2. auto.
Qed.

(** ** Claims about the recovery pass *)

(** C4, amended: a pass with a checkpoint object and a content
    repository returns, and schedules exactly the keys of the entries it
    cannot deliver.  In it, an entry that deserializes and whose
    connection is registered is put on that connection with
    [StoredToRepository] set, and its iteration leaves the Delete Queue
    alone; one whose connection is not registered is delivered nowhere:
    its iteration calls [content_repo_->remove] on its claim when the
    record has a claim and a non-empty content path, makes no other
    call, and enqueues the key, which is still queued when the pass
    ends. *)
Theorem recovery_delivers_or_reclaims w :
  checkpoint_ w = true -> content_repo_ w = true ->
  exists w',
    prune_stored_flowfiles w = Some w'
    /\ keys_to_delete w'
        = keys_to_delete w
            ++ map fst (List.filter
                          (fun entry => negb (deliverable (connectionMap w) entry))
                          (stored_database_ w))
    /\ forall it1 key value it2 eventRead,
         stored_database_ w = it1 ++ (key, value) :: it2 ->
         DeSerialize value = Some eventRead ->
         exists w1 w2,
           prune_loop false it1 w = Some w1
           /\ prune_record false w1 (key, value) = Some w2
           /\ prune_loop false it2 w2 = Some w'
           /\ match connectionMap w !! getConnectionUuid eventRead with
              | Some conn =>
                  trace w2
                  = trace w1
                      ++ [Connection_put conn (setStoredToRepository true eventRead)]
                  /\ keys_to_delete w2 = keys_to_delete w1
              | None =>
                  trace w2
                  = trace w1
                      ++ (if (0 <? String.length (getContentFullPath eventRead))%nat
                          then match getResourceClaim eventRead with
                               | Some claim => [content_remove claim]
                               | None => []
                               end
                          else [])
                  /\ keys_to_delete w2 = keys_to_delete w1 ++ [key]
                  /\ key ∈ keys_to_delete w'
              end.
Proof.
  intros CP CR. rewrite prune_stored_flowfiles_unfold, CP.
  destruct (prune_loop_total false (stored_database_ w) w CR) as [w' P].
  exists w'. split; [exact P|]. split; [by apply prune_loop_queue|].
  intros it1 key value it2 eventRead E D. rewrite E in P.
  apply prune_loop_split in P as (w1 & w2 & P1 & P2 & P3).
  exists w1, w2. repeat split; auto.
  pose proof (prune_loop_effect _ _ _ _ P1) as (_ & CR1 & _ & CM1 & _).
  pose proof (prune_loop_effect _ _ _ _ P3)
    as (_ & _ & _ & _ & _ & _ & _ & s3 & _ & Q3 & _).
  rewrite CR in CR1. unfold prune_record in P2. rewrite D, CM1 in P2.
  destruct (connectionMap w !! getConnectionUuid eventRead) as [conn|].
  - cbn [negb] in P2. injection P2 as <-. split; reflexivity.
  - rewrite reclaim_spec in P2 by exact CR1. injection P2 as <-.
    fold (reclaim_calls eventRead).
    destruct (fold_call (reclaim_calls eventRead) w1) as [T Q].
    unfold enqueue at 1 2. cbn [trace keys_to_delete with_keys_to_delete].
    rewrite T, Q. repeat split.
    rewrite Q3. unfold enqueue. cbn [keys_to_delete with_keys_to_delete].
    rewrite Q. apply elem_of_app. left. apply elem_of_app. right. constructor.
Qed.

Lemma retry_noise_no_content_calls batch noise :
  Forall (retry_noise batch) noise -> List.filter is_content_call noise = [].
Proof.
  induction 1 as [|e noise He _ IH]; cbn; [reflexivity|].
  destruct e; cbn in He; try contradiction; exact IH.
Qed.

Lemma filter_content_calls_released claims :
  List.filter is_content_call (map removeIfOrphaned claims)
  = map removeIfOrphaned claims.
Proof. induction claims as [|c claims IH]; cbn; [|rewrite IH]; reflexivity. Qed.

(** The calls one flush makes on the content repository. *)
Lemma flush_content_calls w :
  List.filter is_content_call (trace (flush w))
  = List.filter is_content_call (trace w)
      ++ (if decide (take 3 (write_faults w) = [true; true; true]) then []
          else if content_repo_ w then
            map removeIfOrphaned
              (omap getResourceClaim (omap (purge_record w) (keys_to_delete w)))
          else []).
Proof.
  destruct (decide _) as [F|F].
  - destruct (flush_abort w F) as (_ & _ & _ & noise & N & ->).
    by rewrite List.filter_app, (retry_noise_no_content_calls _ _ N).
  - destruct (flush_commit w F) as (_ & _ & _ & noise & N & ->).
    rewrite !List.filter_app, (retry_noise_no_content_calls _ _ N).
    cbn [List.filter is_content_call app].
    destruct (content_repo_ w); [|reflexivity].
    by rewrite filter_content_calls_released.
Qed.


(** C10, amended: a recovery pass that returns leaves the store and the
    checkpoint directory as they were and hands no batch to [Write]: it
    appends keys to the Delete Queue, and every call it makes is a
    delivery to a connection or a direct release in the content
    repository.  A key it scheduled leaves the store when the next flush
    reads it and commits its batched delete. *)
Theorem recovery_leaves_store_to_flush w w' :
  prune_stored_flowfiles w = Some w' ->
  db_ w' = db_ w
  /\ checkpoint_directory w' = checkpoint_directory w
  /\ exists scheduled l,
       keys_to_delete w' = keys_to_delete w ++ scheduled
       /\ trace w' = trace w ++ l
       /\ (forall e, e ∈ l ->
             is_delivery e = true \/ exists claim, e = content_remove claim)
       /\ (forall key, key ∈ scheduled ->
             read_ok w' key = true ->
             take 3 (write_faults w') <> [true; true; true] ->
             db_lookup key (db_ (flush w')) = None).
Proof.
  rewrite prune_stored_flowfiles_unfold. intros P.
  assert (E : recovery_effect w w').
  { destruct (checkpoint_ w).
    - by eapply prune_loop_effect.
    - injection P as <-. apply recovery_effect_refl. }
  destruct E as (D & _ & _ & _ & CD & _ & _ & scheduled & l & Q & T & H).
  split; [exact D|]. split; [exact CD|].
  exists scheduled, l. repeat split; auto.
  intros key Hkey R F. destruct (flush_commit w' F) as (_ & -> & _).
  apply db_lookup_apply_batch_in, elem_of_Lfilter. split; [|exact R].
  rewrite Q. apply elem_of_app. by right.
Qed.

(** ** Checkpoint lifecycle *)

(** C7: [need_checkpoint] holds exactly when the live store has a first
    record.  With an empty store [initialize_repository] does nothing;
    with a record in it, its first call is [delete_dir] on the checkpoint
    directory, and the checkpoint is attempted: the calls are, in this
    order, [delete_dir], then [Checkpoint::Create] when the deletion
    succeeded, then [CreateCheckpoint] when that succeeded too; the store
    is not written; when all three succeed the checkpoint object exists
    and the directory holds the store as it is, and otherwise the
    checkpoint object is as it was.  [CreateCheckpoint] is only ever
    called after a [delete_dir] that succeeded.  A recovery pass without
    a checkpoint object returns at once, nothing changed. *)
Theorem checkpoint_lifecycle w :
  (need_checkpoint w = true <-> db_ w <> [])
  /\ (db_ w = [] -> initialize_repository w = w)
  /\ (db_ w <> [] ->
      exists l, trace (initialize_repository w)
                = trace w ++ delete_dir (delete_dir_rc w) :: l)
  /\ (db_ w <> [] ->
      trace (initialize_repository w)
      = trace w ++ delete_dir (delete_dir_rc w)
          :: (if 0 <=? delete_dir_rc w then
                Checkpoint_Create (Checkpoint_Create_st w)
                :: (if ok (Checkpoint_Create_st w)
                    then [CreateCheckpoint (CreateCheckpoint_st w)]
                    else [])
              else [])
      /\ db_ (initialize_repository w) = db_ w
      /\ if (0 <=? delete_dir_rc w) && ok (Checkpoint_Create_st w)
            && ok (CreateCheckpoint_st w)
         then checkpoint_ (initialize_repository w) = true
              /\ checkpoint_directory (initialize_repository w) = Some (db_ w)
         else checkpoint_ (initialize_repository w) = checkpoint_ w)
  /\ (forall pre st post,
        trace (initialize_repository w) = trace w ++ pre ++ CreateCheckpoint st :: post ->
        0 <= delete_dir_rc w
        /\ delete_dir (delete_dir_rc w) ∈ pre
        /\ (ok st = true ->
            checkpoint_ (initialize_repository w) = true
            /\ checkpoint_directory (initialize_repository w) = Some (db_ w)))
  /\ (checkpoint_ w = false -> prune_stored_flowfiles w = Some w).
Proof.
  split; [|split; [|split; [|split; [|split]]]].
  - unfold need_checkpoint. destruct (db_ w); split; congruence.
  - intros E. unfold initialize_repository, need_checkpoint. by rewrite E.
  - intros E. unfold initialize_repository, need_checkpoint.
    destruct (db_ w) as [|entry s]; [congruence|]. cbn [negb].
    destruct (0 <=? delete_dir_rc w); cbn;
      [destruct (Checkpoint_Create_st w); cbn;
       [destruct (CreateCheckpoint_st w); cbn|..]|];
      rewrite <- ?app_assoc; eauto.
  - intros E. unfold initialize_repository, need_checkpoint.
    destruct (db_ w) as [|entry s] eqn:Edb; [congruence|]. cbn [negb].
    destruct (0 <=? delete_dir_rc w); cbn;
      [destruct (Checkpoint_Create_st w); cbn;
       [destruct (CreateCheckpoint_st w); cbn|..]|];
      rewrite <- ?app_assoc, ?Edb; repeat split; reflexivity.
  - intros pre st post. unfold initialize_repository, need_checkpoint.
    destruct (db_ w) as [|entry s] eqn:Edb; cbn [negb].
    { intros E. rewrite <- (app_nil_r (trace w)) in E at 1.
      apply app_inv_head in E. by destruct pre. }
    destruct (0 <=? delete_dir_rc w) eqn:RC; cbn;
      [destruct (Checkpoint_Create_st w); cbn;
       [destruct (CreateCheckpoint_st w); cbn|..]|];
      rewrite <- ?app_assoc; intros E; apply app_inv_head in E;
      destruct pre as [|e1 [|e2 [|e3 pre]]]; try discriminate E;
      try (injection E as; by destruct pre);
      injection E as <- <- <-;
      (split; [by apply Z.leb_le|]); (split; [by left|]);
      intros O; try discriminate O; rewrite ?Edb; split; reflexivity.
  - intros CP. unfold prune_stored_flowfiles. by rewrite CP.
Qed.

(** ** More on flush *)

Lemma mem_filter_read_ok w key keys :
  mem key (List.filter (read_ok w) keys) = mem key keys && read_ok w key.
Proof.
  apply eq_true_iff_eq. rewrite andb_true_iff, !mem_elem, elem_of_Lfilter.
  reflexivity.
Qed.

Lemma db_lookup_apply_batch key batch s :
  db_lookup key (apply_batch batch s)
  = if mem key batch then None else db_lookup key s.
Proof.
  destruct (mem key batch) eqn:M.
  - by apply db_lookup_apply_batch_in, mem_elem.
  - apply db_lookup_apply_batch_other. rewrite <- mem_elem. congruence.
Qed.

Lemma omap_omap {A B C} (f : A -> option B) (g : B -> option C) (l : list A) :
  omap g (omap f l) = omap (fun x => f x ≫= g) l.
Proof.
  induction l as [|x l IH]; cbn; [reflexivity|].
  destruct (f x) as [y|]; cbn; [|exact IH].
  destruct (g y); cbn; by rewrite IH.
Qed.

Lemma omap_none {A B} (f : A -> option B) (l : list A) :
  (forall x, x ∈ l -> f x = None) -> omap f l = [].
Proof.
  induction l as [|x l IH]; intros H; cbn; [reflexivity|].
  rewrite (H x) by constructor. apply IH. intros y Hy. apply H. by constructor.
Qed.

Lemma filter_none {A} (f : A -> bool) (l : list A) :
  (forall x, x ∈ l -> f x = false) -> List.filter f l = [].
Proof.
  induction l as [|x l IH]; intros H; cbn; [reflexivity|].
  rewrite (H x) by constructor. apply IH. intros y Hy. apply H. by constructor.
Qed.

(** X1: on an intact Delete Queue (no key whose read fails holds a NUL or
    is queued twice) no queued key that could be read is lost by a
    flush: when flush returns it is either in the Delete Queue again or
    no longer in the store. *)
Theorem flush_no_readable_key_lost w key :
  keys_intact w ->
  key ∈ keys_to_delete w -> read_ok w key = true ->
  key ∈ keys_to_delete (flush w) \/ db_lookup key (db_ (flush w)) = None.
Proof.
  intros _ Hkey R.
  assert (Hb : key ∈ List.filter (read_ok w) (keys_to_delete w))
    by (by apply elem_of_Lfilter).
  destruct (decide (take 3 (write_faults w) = [true; true; true])) as [F|F].
  - left. destruct (flush_abort w F) as (-> & _). exact Hb.
  - right. destruct (flush_commit w F) as (_ & -> & _).
    by apply db_lookup_apply_batch_in.
Qed.

(** X2: when one of the three write attempts succeeds, flush returns with
    an empty Delete Queue, and the store has lost exactly the queued keys
    that could be read: every other key keeps its value. *)
Theorem flush_committed_deletes_exactly w :
  take 3 (write_faults w) <> [true; true; true] ->
  keys_to_delete (flush w) = []
  /\ forall key,
       db_lookup key (db_ (flush w))
       = if mem key (keys_to_delete w) && read_ok w key then None
         else db_lookup key (db_ w).
Proof.
  intros F. destruct (flush_commit w F) as (Q & D & _).
  split; [exact Q|]. intros key.
  by rewrite D, db_lookup_apply_batch, mem_filter_read_ok.
Qed.

(** X3: with a content repository, a committed flush ends with one
    [removeIfOrphaned] per queued key that was read, deserialized and
    holds a claim, in queue order (a key queued twice is released twice);
    nothing before the ok write is a call on the content repository. *)
Theorem flush_releases_in_queue_order w :
  take 3 (write_faults w) <> [true; true; true] ->
  content_repo_ w = true ->
  exists noise,
    (forall e, e ∈ noise -> is_content_call e = false)
    /\ trace (flush w)
       = trace w ++ noise
           ++ db_Write (List.filter (read_ok w) (keys_to_delete w)) OK
           :: map removeIfOrphaned
                (omap (fun key => purge_record w key ≫= getResourceClaim)
                      (keys_to_delete w)).
Proof.
  intros F CR. destruct (flush_commit w F) as (_ & _ & _ & noise & N & T).
  exists noise. split.
  - intros e He. by apply (retry_noise_quiet _ _ _ N) in He as [H _].
  - rewrite T, CR, omap_omap. reflexivity.
Qed.

(** X4: without a content repository ([content_repo_] is null) flush
    still deletes: once the write is committed every queued key that was
    read is gone from the store, and no call on the content repository is
    made, so the content of those records is left behind. *)
Theorem flush_without_content_repo w :
  content_repo_ w = false ->
  take 3 (write_faults w) <> [true; true; true] ->
  (forall key, key ∈ keys_to_delete w -> read_ok w key = true ->
     db_lookup key (db_ (flush w)) = None)
  /\ exists l, trace (flush w) = trace w ++ l
       /\ forall e, e ∈ l -> is_content_call e = false.
Proof.
  intros CR F. destruct (flush_commit w F) as (_ & D & _ & noise & N & T).
  split.
  - intros key Hkey R. rewrite D.
    by apply db_lookup_apply_batch_in, elem_of_Lfilter.
  - rewrite CR, app_nil_r in T. eexists. split; [exact T|].
    intros e [He|He]%elem_of_app.
    + by apply (retry_noise_quiet _ _ _ N) in He as [H _].
    + apply list_elem_of_singleton in He. by subst e.
Qed.

(** X5: when none of the queued keys is in the store, and the Delete
    Queue is intact (here: no key holds a NUL or is queued twice), flush
    drops them all: the Delete Queue is empty when it returns, whether
    the (empty) batch was committed or not, the store is as it was and
    no call on the content repository is made. *)
Theorem flush_stale_keys_vanish w :
  keys_intact w ->
  (forall key, key ∈ keys_to_delete w -> db_lookup key (db_ w) = None) ->
  keys_to_delete (flush w) = []
  /\ db_ (flush w) = db_ w
  /\ List.filter is_content_call (trace (flush w))
     = List.filter is_content_call (trace w).
Proof.
  intros _ H.
  assert (R : forall key, key ∈ keys_to_delete w -> read_ok w key = false).
  { intros key Hkey. unfold read_ok, db_Get.
    destruct (mem key (read_faults w)); [reflexivity|]. by rewrite (H key Hkey). }
  assert (B : List.filter (read_ok w) (keys_to_delete w) = [])
    by (by apply filter_none).
  assert (P : omap (purge_record w) (keys_to_delete w) = []).
  { apply omap_none. intros key Hkey. unfold purge_record. by rewrite (R key Hkey). }
  split; [|split].
  - destruct (decide (take 3 (write_faults w) = [true; true; true])) as [F|F].
    + destruct (flush_abort w F) as (-> & _). exact B.
    + by destruct (flush_commit w F) as (-> & _).
  - destruct (decide (take 3 (write_faults w) = [true; true; true])) as [F|F].
    + by destruct (flush_abort w F) as (_ & -> & _).
    + destruct (flush_commit w F) as (_ & -> & _). rewrite B.
      apply filter_all. auto.
  - rewrite flush_content_calls, P. cbn.
    destruct (decide _), (content_repo_ w); by rewrite app_nil_r.
Qed.

Lemma ExecuteWithRetry_Write_count batch w :
  exists l,
    trace (snd (ExecuteWithRetry (Write batch) w)) = trace w ++ l
    /\ (1 <= length (List.filter is_db_Write l) <= 3)%nat
    /\ List.filter is_content_call l = [].
Proof.
  unfold ExecuteWithRetry.
  destruct w as [db q cr cp cm cd rf wf rc s1 s2 tr].
  destruct wf as [|[] [|[] [|[] wf]]]; cbn -[wrap_int];
    rewrite <- ?app_assoc; eexists; (split; [reflexivity|]); cbn; (split; [lia|]);
    reflexivity.
Qed.

(** X6: every flush calls [db_->Write] at least once and at most three
    times, also when the Delete Queue is empty, and each time on the same
    batch: the queued keys that could be read, in queue order. *)
Theorem flush_writes_one_to_three_times w :
  exists l,
    trace (flush w) = trace w ++ l
    /\ (1 <= length (List.filter is_db_Write l) <= 3)%nat
    /\ forall batch st, db_Write batch st ∈ l ->
         batch = List.filter (read_ok w) (keys_to_delete w).
Proof.
  set (kept := List.filter (read_ok w) (keys_to_delete w)).
  assert (C : exists l, trace (flush w) = trace w ++ l
                /\ (1 <= length (List.filter is_db_Write l) <= 3)%nat).
  { rewrite flush_unfold. cbn zeta. fold kept.
    destruct (ExecuteWithRetry_Write_count kept (with_keys_to_delete [] w))
      as (l & T & Hl & _).
    destruct (ExecuteWithRetry _ _) as [committed w1]. cbn [fst snd] in *.
    change (trace (with_keys_to_delete [] w)) with (trace w) in T.
    destruct committed; cbn [negb].
    - destruct (content_repo_ w1); [|by exists l].
      rewrite fold_release. cbn [trace]. rewrite T, <- app_assoc.
      eexists. split; [reflexivity|]. rewrite List.filter_app.
      assert (E : forall claims,
                   List.filter is_db_Write (map removeIfOrphaned claims) = []).
      { induction claims; cbn; auto. }
      by rewrite E, app_nil_r.
    - rewrite fold_enqueue. by exists l. }
  destruct C as (l & T & Hl). exists l. split; [exact T|]. split; [exact Hl|].
  intros batch st He.
  destruct (decide (take 3 (write_faults w) = [true; true; true])) as [F|F].
  - destruct (flush_abort w F) as (_ & _ & _ & noise & N & T').
    rewrite T' in T. apply app_inv_head in T. subst l.
    apply (retry_noise_quiet _ _ _ N) in He as (_ & _ & He).
    by destruct (He batch st eq_refl).
  - destruct (flush_commit w F) as (_ & _ & _ & noise & N & T').
    rewrite T' in T. apply app_inv_head in T. subst l.
    apply elem_of_app in He as [He|[He|He]%elem_of_app].
    + apply (retry_noise_quiet _ _ _ N) in He as (_ & _ & He).
      by destruct (He batch st eq_refl).
    + apply list_elem_of_singleton in He. by injection He as -> _.
    + destruct (content_repo_ w); [|inversion He].
      apply list_elem_of_In, in_map_iff in He as (c & [=] & _).
Qed.

(** ** More on the recovery pass *)

Lemma reclaim_deliveries key eventRead w w' :
  reclaim key eventRead w = Some w' ->
  exists l, trace w' = trace w ++ l /\ List.filter is_delivery l = [].
Proof.
  unfold reclaim.
  destruct (0 <? String.length (getContentFullPath eventRead))%nat;
    [destruct (getResourceClaim eventRead) as [claim|];
     [destruct (content_repo_ w)|]|];
    cbn; intros [= <-]; cbn.
  - by exists [content_remove claim].
  - exists []. by rewrite app_nil_r.
  - exists []. by rewrite app_nil_r.
Qed.

Lemma prune_record_deliveries w entry w' :
  prune_record false w entry = Some w' ->
  exists l, trace w' = trace w ++ l
    /\ List.filter is_delivery l
       = match delivery_of (connectionMap w) entry with
         | Some e => [e]
         | None => []
         end.
Proof.
  destruct entry as [key value]. unfold prune_record, delivery_of. cbn [snd negb].
  destruct (DeSerialize value) as [eventRead|]; cbn.
  - destruct (connectionMap w !! getConnectionUuid eventRead) as [conn|]; cbn.
    + intros [= <-]. by eexists [_].
    + apply reclaim_deliveries.
  - intros [= <-]. exists []. by rewrite app_nil_r.
Qed.

Lemma prune_loop_deliveries it : forall w w',
  prune_loop false it w = Some w' ->
  exists l, trace w' = trace w ++ l
    /\ List.filter is_delivery l = omap (delivery_of (connectionMap w)) it.
Proof.
  induction it as [|entry it IH]; intros w w'; cbn [prune_loop].
  - intros [= <-]. exists []. by rewrite app_nil_r.
  - destruct (prune_record false w entry) as [w1|] eqn:E; cbn [mbind option_bind];
      [|discriminate].
    intros H. destruct (IH _ _ H) as (l2 & T2 & D2).
    destruct (prune_record_deliveries _ _ _ E) as (l1 & T1 & D1).
    pose proof (prune_record_effect _ _ _ _ E) as (_ & _ & _ & CM & _).
    exists (l1 ++ l2). split; [by rewrite T2, T1, app_assoc|].
    rewrite List.filter_app, D1, D2, CM. cbn [omap list_omap].
    by destruct (delivery_of (connectionMap w) entry).
Qed.

Lemma delivered_or_scheduled cm (it : Store) :
  (length (omap (delivery_of cm) it)
   + length (List.filter (fun entry => negb (deliverable cm entry)) it)
   = length it)%nat.
Proof.
  induction it as [|[key value] it IH]; cbn [omap list_omap List.filter];
    [reflexivity|].
  unfold delivery_of at 1, deliverable at 1. cbn [snd].
  destruct (DeSerialize value) as [eventRead|]; cbn [mbind option_bind].
  - destruct (cm !! getConnectionUuid eventRead) as [conn|]; cbn [mbind option_bind].
    + rewrite bool_decide_eq_true_2 by eauto. cbn [negb length]. lia.
    + rewrite bool_decide_eq_false_2 by (intros [? [=]]). cbn [negb length]. lia.
  - cbn [negb length]. lia.
Qed.

(** X7: a recovery pass with a checkpoint object and a content repository
    returns; its deliveries are, in iteration order, one put per stored
    entry that deserializes and whose connection is registered, each
    with [StoredToRepository] set; and the deliveries and the keys
    scheduled for deletion together number the stored entries. *)
Theorem recovery_delivers_or_schedules_each_entry w :
  checkpoint_ w = true -> content_repo_ w = true ->
  exists w' calls scheduled,
    prune_stored_flowfiles w = Some w'
    /\ trace w' = trace w ++ calls
    /\ keys_to_delete w' = keys_to_delete w ++ scheduled
    /\ List.filter is_delivery calls
       = omap (delivery_of (connectionMap w)) (stored_database_ w)
    /\ (length (List.filter is_delivery calls) + length scheduled
        = length (stored_database_ w))%nat.
Proof.
  intros CP CR. rewrite prune_stored_flowfiles_unfold, CP.
  destruct (prune_loop_total false (stored_database_ w) w CR) as [w' P].
  destruct (prune_loop_deliveries _ _ _ P) as (calls & T & D).
  exists w', calls. eexists. split; [exact P|]. split; [exact T|].
  split; [by apply prune_loop_queue|]. split; [exact D|].
  rewrite D, length_map. apply delivered_or_scheduled.
Qed.

Lemma prune_record_null w entry :
  content_repo_ w = false ->
  prune_record false w entry = None <-> needs_release (connectionMap w) entry = true.
Proof.
  intros CR. destruct entry as [key value].
  unfold prune_record, needs_release, reclaim. cbn [snd negb].
  destruct (DeSerialize value) as [eventRead|]; [|done].
  destruct (connectionMap w !! getConnectionUuid eventRead) as [conn|]; [done|].
  destruct (getResourceClaim eventRead) as [claim|];
    destruct (0 <? String.length (getContentFullPath eventRead))%nat;
    rewrite ?CR; cbn; done.
Qed.

Lemma prune_loop_null it : forall w,
  content_repo_ w = false ->
  prune_loop false it w = None
  <-> exists entry, entry ∈ it /\ needs_release (connectionMap w) entry = true.
Proof.
  induction it as [|entry it IH]; intros w CR; cbn [prune_loop].
  - split; [discriminate|]. intros (entry & He & _). inversion He.
  - destruct (prune_record false w entry) as [w1|] eqn:E; cbn [mbind option_bind].
    + pose proof (prune_record_effect _ _ _ _ E) as (_ & CR1 & _ & CM & _).
      rewrite CR in CR1. rewrite (IH w1 CR1), CM.
      assert (N : needs_release (connectionMap w) entry <> true).
      { rewrite <- (prune_record_null _ _ CR). congruence. }
      split; intros (e & He & R); exists e.
      * split; [by right|exact R].
      * apply elem_of_cons in He as [->|He]; [contradiction|]. auto.
    + split; [|done]. intros _. exists entry. split; [by left|].
      by apply (prune_record_null _ _ CR).
Qed.

(** X8: the recovery pass calls [content_repo_->remove] without testing
    [content_repo_].  With a checkpoint object and no content repository
    it fails on that null pointer exactly when some stored entry
    deserializes, has no registered connection, has a content path and
    holds a claim; otherwise it runs to its end. *)
Theorem recovery_without_content_repo w :
  checkpoint_ w = true -> content_repo_ w = false ->
  prune_stored_flowfiles w = None
  <-> exists entry, entry ∈ stored_database_ w
        /\ needs_release (connectionMap w) entry = true.
Proof.
  intros CP CR. rewrite prune_stored_flowfiles_unfold, CP.
  by apply prune_loop_null.
Qed.

(** X9: when the store is not empty and the three checkpoint steps
    succeed, [initialize_repository] leaves a checkpoint object and a
    directory holding the store as it is, and the recovery pass that
    follows iterates exactly those records. *)
Theorem recovery_reads_store_as_initialized w :
  db_ w <> [] -> 0 <= delete_dir_rc w ->
  Checkpoint_Create_st w = OK -> CreateCheckpoint_st w = OK ->
  checkpoint_ (initialize_repository w) = true
  /\ stored_database_ (initialize_repository w) = db_ w
  /\ db_ (initialize_repository w) = db_ w
  /\ prune_stored_flowfiles (initialize_repository w)
     = prune_loop false (db_ w) (initialize_repository w).
Proof.
  intros Hdb Hrc H1 H2.
  assert (E : initialize_repository w
              = with_checkpoint_ true
                  (with_checkpoint_directory (Some (db_ w))
                     (call (CreateCheckpoint OK)
                        (call (Checkpoint_Create OK)
                           (call (delete_dir (delete_dir_rc w))
                              (with_checkpoint_directory None w)))))).
  { unfold initialize_repository, need_checkpoint.
    destruct (db_ w) as [|entry s] eqn:Edb; [congruence|]. cbn [negb].
    apply Z.leb_le in Hrc. rewrite Hrc. cbn. rewrite H1. cbn. rewrite H2. cbn.
    by rewrite Edb. }
  rewrite E. repeat split.
Qed.

(** X10: starting without a checkpoint object, when the store is empty or
    one of the three checkpoint steps fails, [initialize_repository]
    leaves no checkpoint object and the recovery pass that follows does
    nothing; and once [delete_dir] has succeeded, a failure of a later
    step leaves the previous checkpoint deleted and none in its place. *)
Theorem recovery_skipped_without_checkpoint w :
  checkpoint_ w = false ->
  db_ w = [] \/ delete_dir_rc w < 0
    \/ Checkpoint_Create_st w <> OK \/ CreateCheckpoint_st w <> OK ->
  checkpoint_ (initialize_repository w) = false
  /\ prune_stored_flowfiles (initialize_repository w)
     = Some (initialize_repository w)
  /\ (db_ w <> [] -> 0 <= delete_dir_rc w ->
      checkpoint_directory (initialize_repository w) = None).
Proof.
  intros CP H.
  assert (C : checkpoint_ (initialize_repository w) = false
              /\ (db_ w <> [] -> 0 <= delete_dir_rc w ->
                  checkpoint_directory (initialize_repository w) = None)).
  { unfold initialize_repository, need_checkpoint.
    destruct (db_ w) as [|entry s] eqn:Edb; cbn [negb]; [split; [done|congruence]|].
    destruct (0 <=? delete_dir_rc w) eqn:RC; cbn.
    - destruct (Checkpoint_Create_st w) eqn:S1; cbn; try done.
      destruct (CreateCheckpoint_st w) eqn:S2; cbn; try done.
      apply Z.leb_le in RC.
      destruct H as [H|[H|[H|H]]]; (congruence || lia).
    - split; [done|]. intros _ Hrc. apply Z.leb_gt in RC. lia. }
  destruct C as [C1 C2]. split; [exact C1|]. split; [|exact C2].
  unfold prune_stored_flowfiles. by rewrite C1.
Qed.

Lemma lookup_of_entry key value (s : Store) :
  (key, value) ∈ s -> is_Some (db_lookup key s).
Proof.
  induction s as [|[k v] s IH]; intros H; [inversion H|]. cbn.
  destruct (String.eqb key k) eqn:E; [done|].
  apply elem_of_cons in H as [H|H]; [|by apply IH].
  injection H as -> _. rewrite String.eqb_refl in E. discriminate E.
Qed.

Lemma unique_value (s : Store) key v1 v2 :
  NoDup (map fst s) -> (key, v1) ∈ s -> (key, v2) ∈ s -> v1 = v2.
Proof.
  induction s as [|[k v] s IH]; intros ND H1 H2; [inversion H1|].
  cbn in ND. apply NoDup_cons in ND as [Hk ND].
  assert (Hin : forall v', (k, v') ∈ s -> k ∈ map fst s).
  { intros v' H. apply list_elem_of_In, in_map_iff. exists (k, v').
    split; [reflexivity|by apply list_elem_of_In]. }
  apply elem_of_cons in H1 as [H1|H1], H2 as [H2|H2].
  - congruence.
  - injection H1 as -> ->. destruct Hk. by eapply Hin.
  - injection H2 as -> ->. destruct Hk. by eapply Hin.
  - by apply IH.
Qed.

(** X11: recovery followed by one flush.  When the checkpoint holds the
    live store, the keys of the store are distinct, nothing was queued,
    reads do not fail and the write is committed, the store is left with
    exactly the entries that were delivered, and the Delete Queue is
    empty. *)
Theorem recover_then_flush_keeps_delivered w :
  NoDup (map fst (db_ w)) ->
  checkpoint_ w = true -> checkpoint_directory w = Some (db_ w) ->
  content_repo_ w = true -> keys_to_delete w = [] -> read_faults w = [] ->
  take 3 (write_faults w) <> [true; true; true] ->
  exists w1,
    prune_stored_flowfiles w = Some w1
    /\ db_ (flush w1) = List.filter (deliverable (connectionMap w)) (db_ w)
    /\ keys_to_delete (flush w1) = [].
Proof.
  intros ND CP CD CR Q RF F.
  rewrite prune_stored_flowfiles_unfold, CP.
  assert (SD : stored_database_ w = db_ w)
    by (unfold stored_database_, OpenForReadOnly; by rewrite CD).
  rewrite SD.
  destruct (prune_loop_total false (db_ w) w CR) as [w1 P].
  exists w1. split; [exact P|].
  pose proof (prune_loop_queue _ _ _ P) as Q1. rewrite Q in Q1. cbn [app] in Q1.
  pose proof (prune_loop_effect _ _ _ _ P) as (D & _ & _ & _ & _ & RF1 & WF1 & _).
  rewrite <- WF1 in F. destruct (flush_commit w1 F) as (Q2 & D2 & _).
  split; [|exact Q2]. rewrite D2, D, Q1.
  set (scheduled :=
         map fst (List.filter
                    (fun entry => negb (deliverable (connectionMap w) entry))
                    (db_ w))).
  assert (K : List.filter (read_ok w1) scheduled = scheduled).
  { apply filter_all. intros key Hkey.
    apply list_elem_of_In, in_map_iff in Hkey as ([k v] & <- & Hkv).
    apply filter_In in Hkv as [Hkv _]. apply list_elem_of_In in Hkv.
    unfold read_ok, db_Get. rewrite RF1, RF, D. cbn.
    by destruct (lookup_of_entry _ _ _ Hkv) as [v' ->]. }
  rewrite K. unfold apply_batch. apply filter_agree.
  intros [key value] Hkv. cbn [fst].
  destruct (deliverable (connectionMap w) (key, value)) eqn:Del.
  - apply negb_true_iff, not_true_iff_false. rewrite mem_elem.
    intros Hin. apply list_elem_of_In, in_map_iff in Hin as ([k v] & E & Hkv').
    cbn in E. subst k. apply filter_In in Hkv' as [Hkv' N].
    assert (v = value)
      by (eapply unique_value; [exact ND|by apply list_elem_of_In|exact Hkv]).
    subst v. by rewrite Del in N.
  - apply negb_false_iff, mem_elem, list_elem_of_In, in_map_iff.
    exists (key, value). split; [reflexivity|].
    apply filter_In. split; [by apply list_elem_of_In|]. by rewrite Del.
Qed.

(** ** The nodes of [keystrings] *)

Lemma flush_step_nodes_None items :
  fold_left flush_step_nodes items None = None.
Proof. induction items as [|x items IH]; [reflexivity|exact IH]. Qed.

Lemma elem_of_list_remove x value l :
  x ∈ list_remove value l <-> x ∈ l /\ x <> value.
Proof.
  unfold list_remove. rewrite elem_of_Lfilter, negb_true_iff.
  split; intros [H E]; (split; [exact H|]).
  - intros ->. by rewrite String.eqb_refl in E.
  - by apply String.eqb_neq.
Qed.

(** The loop on the nodes reads an erased node exactly when it comes to a
    key that [keystrings] does not hold, or that equals the C string of
    an earlier key whose read failed. *)
Lemma nodes_loop_None w keys : forall keystrings purgeList batch,
  fold_left flush_step_nodes
    (combine keys (combine (map (fun k => snd (db_Get w k)) keys)
                           (map (fun k => fst (db_Get w k)) keys)))
    (Some (keystrings, purgeList, batch)) = None
  <-> exists l1 key l2,
        keys = l1 ++ key :: l2
        /\ ((key ∉ keystrings)
            \/ exists u, u ∈ l1 /\ read_ok w u = false /\ c_str u = key).
Proof.
  induction keys as [|k keys IH]; intros keystrings purgeList batch.
  - cbn. split; [discriminate|]. intros (l1 & key & l2 & E & _). by destruct l1.
  - cbn [map combine fold_left flush_step_nodes].
    destruct (mem k keystrings) eqn:M; cbn [negb].
    2:{ rewrite flush_step_nodes_None. split; [intros _|reflexivity].
        exists [], k, keys. split; [reflexivity|]. left.
        rewrite <- mem_elem. congruence. }
    apply mem_elem in M. fold (read_ok w k).
    destruct (read_ok w k) eqn:R; cbn [negb]; rewrite IH; split.
    + intros (l1 & key & l2 & -> & H). exists (k :: l1), key, l2.
      split; [reflexivity|]. destruct H as [H|(u & Hu & Ru & Eu)]; [by left|].
      right. exists u. split; [by right|auto].
    + intros (l1 & key & l2 & E & H). destruct l1 as [|k' l1]; cbn in E.
      * injection E as <- <-. destruct H as [H|(u & Hu & _)]; [done|inversion Hu].
      * injection E as <- ->. exists l1, key, l2. split; [reflexivity|].
        destruct H as [H|(u & Hu & Ru & Eu)]; [by left|].
        apply elem_of_cons in Hu as [->|Hu]; [congruence|].
        right. exists u. auto.
    + intros (l1 & key & l2 & -> & H). exists (k :: l1), key, l2.
      split; [reflexivity|]. destruct H as [H|(u & Hu & Ru & Eu)].
      * rewrite elem_of_list_remove in H.
        destruct (decide (key ∈ keystrings)) as [Hk|Hk]; [|by left].
        right. exists k. split; [by left|]. split; [exact R|].
        destruct (decide (c_str k = key)) as [E|E]; [exact E|].
        exfalso. apply H. split; [exact Hk|congruence].
      * right. exists u. split; [by right|auto].
    + intros (l1 & key & l2 & E & H). destruct l1 as [|k' l1]; cbn in E.
      * injection E as <- <-. destruct H as [H|(u & Hu & _)]; [done|inversion Hu].
      * injection E as <- ->. exists l1, key, l2. split; [reflexivity|].
        destruct H as [H|(u & Hu & Ru & Eu)].
        { left. rewrite elem_of_list_remove. tauto. }
        apply elem_of_cons in Hu as [->|Hu].
        { left. rewrite elem_of_list_remove. intros [_ N]. congruence. }
        right. exists u. auto.
Qed.

(** As long as it reads no erased node, and the keys whose read failed
    hold no NUL, the loop on the nodes is the loop by value. *)
Lemma nodes_loop_agree w keys : forall keystrings purgeList batch,
  (forall u, u ∈ keys -> read_ok w u = false -> c_str u = u) ->
  fold_left flush_step_nodes
    (combine keys (combine (map (fun k => snd (db_Get w k)) keys)
                           (map (fun k => fst (db_Get w k)) keys)))
    (Some (keystrings, purgeList, batch)) <> None ->
  fold_left flush_step_nodes
    (combine keys (combine (map (fun k => snd (db_Get w k)) keys)
                           (map (fun k => fst (db_Get w k)) keys)))
    (Some (keystrings, purgeList, batch))
  = Some (fold_left flush_step
            (combine keys (combine (map (fun k => snd (db_Get w k)) keys)
                                   (map (fun k => fst (db_Get w k)) keys)))
            (keystrings, purgeList, batch)).
Proof.
  induction keys as [|k keys IH]; intros keystrings purgeList batch H;
    [reflexivity|].
  cbn [map combine fold_left flush_step_nodes flush_step].
  destruct (mem k keystrings); cbn [negb];
    [|by rewrite flush_step_nodes_None].
  assert (H' : forall u, u ∈ keys -> read_ok w u = false -> c_str u = u)
    by (intros u Hu; apply H; by right).
  fold (read_ok w k). destruct (read_ok w k) eqn:R; cbn [negb].
  - by apply IH.
  - rewrite (H k) by (done || by left). by apply IH.
Qed.

Lemma NoDup_filter_twice {A} (f : A -> bool) l1 u l2 :
  f u = true -> u ∈ l2 -> ~ NoDup (List.filter f (l1 ++ u :: l2)).
Proof.
  intros F Hu N. rewrite List.filter_app in N. cbn in N. rewrite F in N.
  apply NoDup_app in N as (_ & _ & N). apply NoDup_cons in N as [N _].
  apply N. by apply elem_of_Lfilter.
Qed.

(** X26: [flush] reads freed memory on some queues.  Its loop reads a node
    of [keystrings] that an earlier [keystrings.remove] has erased exactly
    when the C string of a key whose read failed equals a key queued
    after it, as when such a key is queued twice.  On an intact queue it
    reads none, and what it does is the removal by value of [flush]. *)
Theorem flush_reads_erased_node w :
  (flush_nodes w = None
   <-> exists l1 key l2,
         keys_to_delete w = l1 ++ key :: l2
         /\ read_ok w key = false /\ c_str key ∈ l2)
  /\ (keys_intact w -> flush_nodes w = Some (flush w)).
Proof.
  assert (N : flush_nodes w = None
              <-> exists l1 key l2,
                    keys_to_delete w = l1 ++ key :: l2
                    /\ read_ok w key = false /\ c_str key ∈ l2).
  { unfold flush_nodes. rewrite drain_spec. cbn [app]. unfold MultiGet.
    change (db_Get (with_keys_to_delete [] w)) with (db_Get w).
    pose proof (nodes_loop_None w (keys_to_delete w) (keys_to_delete w) [] [])
      as L.
    destruct (fold_left flush_step_nodes _ _) as [[[keystrings purgeList] batch]|].
    - destruct (ExecuteWithRetry _ _) as [committed w1]. split; [discriminate|].
      intros (l1 & u & l2 & E & R & Hc). exfalso.
      assert (X : Some (keystrings, purgeList, batch) = None); [|discriminate X].
      apply L. apply list_elem_of_split in Hc as (la & lb & ->).
      exists (l1 ++ u :: la), (c_str u), lb. split.
      + rewrite E, <- app_assoc. reflexivity.
      + right. exists u. split; [|auto]. apply elem_of_app. right. by left.
    - split; [intros _|reflexivity].
      destruct (proj1 L eq_refl) as (l1 & key & l2 & E & [H|(u & Hu & R & Eu)]).
      + exfalso. apply H. rewrite E. apply elem_of_app. right. by left.
      + apply list_elem_of_split in Hu as (la & lb & ->).
        exists la, u, (lb ++ key :: l2). split; [by rewrite E, <- app_assoc|].
        split; [exact R|]. rewrite Eu. apply elem_of_app. right. by left. }
  split; [exact N|]. intros [Hnul Hdup].
  assert (D : flush_nodes w <> None).
  { intros (l1 & u & l2 & E & R & Hc)%N.
    assert (Eu : c_str u = u).
    { apply Hnul; [|exact R]. rewrite E. apply elem_of_app. right. by left. }
    rewrite Eu in Hc. rewrite E in Hdup.
    apply (NoDup_filter_twice _ l1 u l2) in Hdup; [done| |done].
    by rewrite R. }
  revert D. unfold flush_nodes, flush. rewrite drain_spec. cbn [app].
  unfold MultiGet.
  change (db_Get (with_keys_to_delete [] w)) with (db_Get w).
  intros D.
  rewrite nodes_loop_agree.
  - destruct (fold_left flush_step _ _) as [[keystrings purgeList] batch].
    destruct (ExecuteWithRetry _ _) as [committed w1]. reflexivity.
  - exact Hnul.
  - intros E. rewrite E in D. by apply D.
Qed.

(** ** The worker loop *)

Lemma flush_calls w :
  exists l, trace (flush w) = trace w ++ l
    /\ forall e, e ∈ l ->
         is_delivery e = false /\ forall claim, e <> content_remove claim.
Proof.
  destruct (decide (take 3 (write_faults w) = [true; true; true])) as [F|F].
  - destruct (flush_abort w F) as (_ & _ & _ & noise & N & T).
    exists noise. split; [exact T|]. intros e He.
    apply (retry_noise_quiet _ _ _ N) in He as (H1 & H2 & _).
    split; [exact H2|]. intros claim ->. discriminate H1.
  - destruct (flush_commit w F) as (_ & _ & _ & noise & N & T).
    eexists. split; [exact T|].
    intros e [He|[He|He]%elem_of_app]%elem_of_app.
    + apply (retry_noise_quiet _ _ _ N) in He as (H1 & H2 & _).
      split; [exact H2|]. intros claim ->. discriminate H1.
    + apply list_elem_of_singleton in He. by subst e.
    + destruct (content_repo_ w); [|inversion He].
      by apply list_elem_of_In, in_map_iff in He as (c & <- & _).
Qed.

Lemma flush_shrinks w key value :
  db_lookup key (db_ (flush w)) = Some value ->
  db_lookup key (db_ w) = Some value.
Proof.
  destruct (decide (take 3 (write_faults w) = [true; true; true])) as [F|F].
  - by destruct (flush_abort w F) as (_ & -> & _).
  - destruct (flush_commit w F) as (_ & -> & _).
    rewrite db_lookup_apply_batch. by destruct (mem key _).
Qed.

Lemma run_loop_calls running_ : forall w,
  exists l, trace (run_loop running_ w) = trace w ++ l
    /\ forall e, e ∈ l ->
         is_delivery e = false /\ forall claim, e <> content_remove claim.
Proof.
  induction running_ as [|[] running_ IH]; intros w; cbn [run_loop].
  - exists []. rewrite app_nil_r. split; [reflexivity|]. intros e He. inversion He.
  - destruct (IH (flush (call (sleep_for purge_period_) w))) as (l2 & T2 & H2).
    destruct (flush_calls (call (sleep_for purge_period_) w)) as (l1 & T1 & H1).
    exists (sleep_for purge_period_ :: l1 ++ l2). split.
    + rewrite T2, T1. cbn [trace call]. by rewrite <- !app_assoc.
    + intros e He. apply elem_of_cons in He as [He|He].
      * subst e. split; [reflexivity|]. intros claim [=].
      * apply elem_of_app in He as [He|He]; auto.
  - exists []. rewrite app_nil_r. split; [reflexivity|]. intros e He. inversion He.
Qed.

Lemma run_loop_shrinks running_ key value : forall w,
  db_lookup key (db_ (run_loop running_ w)) = Some value ->
  db_lookup key (db_ w) = Some value.
Proof.
  induction running_ as [|[] running_ IH]; intros w; cbn [run_loop]; auto.
  intros H. apply IH, flush_shrinks in H. exact H.
Qed.

Lemma run_loop_cycles running_ w :
  exists flushed,
    trace (run_loop running_ w) = trace w ++ flushed
    /\ (forall e, e ∈ flushed ->
          is_delivery e = false /\ forall claim, e <> content_remove claim)
    /\ (head running_ = Some true ->
        exists l, flushed = sleep_for purge_period_ :: l)
    /\ (head running_ = Some true ->
        exists l, trace (run_loop running_ w)
                  = trace (flush (call (sleep_for purge_period_) w)) ++ l)
    /\ (head running_ <> Some true -> run_loop running_ w = w).
Proof.
  destruct running_ as [|[] running_]; cbn [run_loop head].
  - exists []. rewrite app_nil_r.
    split; [reflexivity|]. split; [intros e He; inversion He|].
    split; [done|]. by split.
  - destruct (run_loop_calls running_ (flush (call (sleep_for purge_period_) w)))
      as (l2 & T2 & H2).
    destruct (flush_calls (call (sleep_for purge_period_) w)) as (l1 & T1 & H1).
    exists (sleep_for purge_period_ :: l1 ++ l2).
    split; [|split; [|split; [|split]]].
    + rewrite T2, T1. cbn [trace call]. by rewrite <- !app_assoc.
    + intros e He. apply elem_of_cons in He as [He|He].
      * subst e. split; [reflexivity|]. intros claim [=].
      * apply elem_of_app in He as [He|He]; auto.
    + intros _. by exists (l1 ++ l2).
    + intros _. by exists l2.
    + intros H. by destruct H.
  - exists []. rewrite app_nil_r.
    split; [reflexivity|]. split; [intros e He; inversion He|].
    split; [done|]. by split.
Qed.

(** X12: the worker recovers before it flushes.  In a run that returns,
    the recovery pass is run once, first, exactly when the first read of
    [running_] is true, and its calls are deliveries to connections and
    direct releases; all calls after it are those of the flush cycles,
    among which there is no delivery and no direct release; when the
    next read of [running_] is true the cycles start with the sleep of
    [purge_period_] and the flush of the recovered state, and there is
    none when it is false. *)
Theorem run_recovers_before_flushing running_ w w' :
  run running_ w = Some w' ->
  exists w1 recovered flushed,
    (head running_ = Some true -> prune_stored_flowfiles w = Some w1)
    /\ (head running_ <> Some true -> w1 = w)
    /\ trace w1 = trace w ++ recovered
    /\ trace w' = trace w1 ++ flushed
    /\ (forall e, e ∈ recovered ->
          is_delivery e = true \/ exists claim, e = content_remove claim)
    /\ (forall e, e ∈ flushed ->
          is_delivery e = false /\ forall claim, e <> content_remove claim)
    /\ (head (tail running_) = Some true ->
        exists l, flushed = sleep_for purge_period_ :: l)
    /\ (head (tail running_) = Some true ->
        exists l, trace w'
                  = trace (flush (call (sleep_for purge_period_) w1)) ++ l)
    /\ (head (tail running_) <> Some true -> w' = w1).
Proof.
  unfold run. destruct running_ as [|[] running_]; cbn [head tail].
  - intros [= <-]. exists w, [], []. rewrite !app_nil_r.
    split; [done|]. split; [done|]. split; [done|]. split; [done|].
    split; [intros e He; inversion He|].
    split; [intros e He; inversion He|]. split; [done|]. by split.
  - destruct (prune_stored_flowfiles w) as [w1|] eqn:P; cbn; [|discriminate].
    intros [= <-].
    assert (E : recovery_effect w w1).
    { rewrite prune_stored_flowfiles_unfold in P. destruct (checkpoint_ w).
      - by eapply prune_loop_effect.
      - injection P as <-. apply recovery_effect_refl. }
    destruct E as (_ & _ & _ & _ & _ & _ & _ & _ & l1 & _ & T1 & H1).
    destruct (run_loop_cycles running_ w1) as (l2 & T2 & H2 & S2 & C2 & N2).
    exists w1, l1, l2.
    split; [done|]. split; [intros H; by destruct H|]. split; [exact T1|].
    split; [exact T2|]. split; [exact H1|]. split; [exact H2|].
    split; [exact S2|]. split; [exact C2|exact N2].
  - intros [= <-].
    destruct (run_loop_cycles running_ w) as (l2 & T2 & H2 & S2 & C2 & N2).
    exists w, [], l2. rewrite app_nil_r.
    split; [done|]. split; [done|]. split; [done|]. split; [exact T2|].
    split; [intros e He; inversion He|]. split; [exact H2|].
    split; [exact S2|]. split; [exact C2|exact N2].
Qed.

(** X13: the worker never adds to the store or changes a value in it:
    whatever a key holds when [run] returns, it held before. *)
Theorem run_store_only_shrinks running_ w w' key value :
  run running_ w = Some w' ->
  db_lookup key (db_ w') = Some value ->
  db_lookup key (db_ w) = Some value.
Proof.
  unfold run. destruct running_ as [|[] running_].
  - by intros [= <-].
  - destruct (prune_stored_flowfiles w) as [w1|] eqn:P; cbn; [|discriminate].
    intros [= <-] H. apply run_loop_shrinks in H.
    assert (E : recovery_effect w w1).
    { rewrite prune_stored_flowfiles_unfold in P. destruct (checkpoint_ w).
      - by eapply prune_loop_effect.
      - injection P as <-. apply recovery_effect_refl. }
    destruct E as (D & _). by rewrite <- D.
  - intros [= <-]. apply run_loop_shrinks.
Qed.

End Repository.

(** ** The properties on the fixture *)

Example flush_fixture_queued :
  trace (flush fixture_DeSerialize 500 fixture_queued)
  = [db_Write ["K1"; "K4"; "K2"] OK;
     removeIfOrphaned "claim1"; removeIfOrphaned "claim2"]
  /\ db_ (flush fixture_DeSerialize 500 fixture_queued) = [("K3", "v3")]
  /\ keys_to_delete (flush fixture_DeSerialize 500 fixture_queued) = [].
Proof. repeat split. Qed.

Example flush_fixture_failing :
  trace (flush fixture_DeSerialize 500 fixture_failing)
  = [db_Write ["K1"; "K4"; "K2"] IOError; sleep_for 500;
     db_Write ["K1"; "K4"; "K2"] IOError; sleep_for 1000;
     db_Write ["K1"; "K4"; "K2"] IOError; sleep_for 1500]
  /\ db_ (flush fixture_DeSerialize 500 fixture_failing) = fixture_store
  /\ keys_to_delete (flush fixture_DeSerialize 500 fixture_failing)
     = ["K1"; "K4"; "K2"].
Proof. repeat split. Qed.

Example initialize_repository_fixture :
  trace (initialize_repository fixture)
  = [delete_dir 0; Checkpoint_Create OK; CreateCheckpoint OK].
Proof. reflexivity. Qed.

Example flush_nodes_fixture_twice :
  flush_nodes fixture_DeSerialize 500 fixture_twice = None
  /\ flush_nodes fixture_DeSerialize 500 fixture_queued
     = Some (flush fixture_DeSerialize 500 fixture_queued).
Proof. split; reflexivity. Qed.

Example flush_nodes_fixture_nul :
  keys_to_delete <$> flush_nodes fixture_DeSerialize 500 fixture_nul
  = Some [String.append "K1" (String Ascii.zero "x")].
Proof. reflexivity. Qed.

Ltac queue_intact :=
  split;
  [ let key := fresh "key" in
    let Hk := fresh "Hk" in
    intros key Hk _; cbn in Hk;
    repeat (apply elem_of_cons in Hk as [->|Hk]; [reflexivity|]); inversion Hk
  | apply (bool_decide_unpack _); vm_compute; exact I ].


Lemma fixture_failing_intact : keys_intact fixture_failing.
Proof. queue_intact. Qed.

Lemma fixture_stale_intact : keys_intact fixture_stale.
Proof. queue_intact. Qed.

Lemma ExecuteWithRetry_linear_backoff_witness :
  0 <= 500 /\ 3 * 500 <= INT_MAX
  /\ ExecuteWithRetry 500 (Write ["K1"]) fixture_failing
     = (false, before_attempt 500 (Write ["K1"]) 3 fixture_failing).
Proof.
  assert (H0 : 0 <= 500) by lia.
  assert (H1 : 3 * 500 <= INT_MAX) by (unfold INT_MAX; lia).
  split; [exact H0|]. split; [exact H1|].
  destruct (ExecuteWithRetry_linear_backoff 500 (Write ["K1"]) fixture_failing H0 H1)
    as (_ & H & _).
  apply H. intros j Hj.
  destruct j as [|[|[|j]]]; [reflexivity..|lia].
Defined.



Lemma flush_empty_queue_witness :
  keys_to_delete fixture = []
  /\ db_ (flush fixture_DeSerialize 500 fixture) = fixture_store
  /\ keys_to_delete (flush fixture_DeSerialize 500 fixture) = [].
Proof.
  split; [reflexivity|].
  destruct (flush_empty_queue fixture_DeSerialize 500 fixture eq_refl) as (D & Q & _).
  split; [exact D|exact Q].
Defined.


(** C2 on the fixture, with a checkpoint object whose directory cannot be
    opened: the pass iterates the live store, and [K1], whose connection
    is registered, is put on that connection: its key is not scheduled,
    its claim not released. *)
Theorem recovery_fallback_is_not_flagged :
  checkpoint_ fixture_fallback = true
  /\ OpenForReadOnly fixture_fallback = None
  /\ stored_database_ fixture_fallback = db_ fixture_fallback
  /\ exists w',
       prune_stored_flowfiles fixture_DeSerialize fixture_fallback = Some w'
       /\ trace w'
          = [Connection_put 7%nat
               (mkFlowFileRecord "K1" "C" "/content/1" (Some "claim1") true);
             content_remove "claim2"]
       /\ keys_to_delete w' = ["K2"; "K3"; "K4"].
Proof.
  split; [reflexivity|]. split; [reflexivity|]. split; [reflexivity|].
  eexists. split; [vm_compute; reflexivity|]. split; reflexivity.
Qed.

(** C4 as it is written fails on the fixture: the record under [K3]
    deserializes, its connection [D] is not registered and it holds
    [claim3], but its content path is empty: the pass schedules [K3] and
    its only call on the content repository is for [claim2]. *)
Lemma recovery_keeps_claim_without_content_path :
  exists w' eventRead,
    prune_stored_flowfiles fixture_DeSerialize fixture = Some w'
    /\ ("K3", "v3") ∈ stored_database_ fixture
    /\ fixture_DeSerialize "v3" = Some eventRead
    /\ connectionMap fixture !! getConnectionUuid eventRead = None
    /\ getResourceClaim eventRead = Some "claim3"
    /\ "K3" ∈ keys_to_delete w'
    /\ List.filter is_content_call (trace w') = [content_remove "claim2"].
Proof.
  eexists. eexists. split; [vm_compute; reflexivity|].
  split; [do 2 right; left|].
  split; [reflexivity|]. split; [reflexivity|]. split; [reflexivity|].
  split; [right; left|reflexivity].
Qed.

Lemma recovery_delivers_or_reclaims_witness :
  checkpoint_ fixture = true /\ content_repo_ fixture = true
  /\ exists w',
       prune_stored_flowfiles fixture_DeSerialize fixture = Some w'
       /\ keys_to_delete w' = ["K2"; "K3"; "K4"].
Proof.
  split; [reflexivity|]. split; [reflexivity|].
  destruct (recovery_delivers_or_reclaims fixture_DeSerialize fixture eq_refl eq_refl)
    as (w' & P & Q & _).
  exists w'. split; [exact P|exact Q].
Defined.

(** C10 as it is written fails on the fixture: the pass calls
    [content_repo_->remove] for [claim2], which is neither enqueuing a
    key nor delivering a record. *)
Lemma recovery_also_releases_content :
  exists w',
    prune_stored_flowfiles fixture_DeSerialize fixture = Some w'
    /\ ~ only_enqueues_and_delivers fixture w'.
Proof.
  eexists. split; [vm_compute; reflexivity|].
  intros (_ & scheduled & l & _ & T & H).
  cbn in T. subst l.
  discriminate (H (content_remove "claim2") ltac:(right; left)).
Qed.

Lemma recovery_leaves_store_to_flush_witness :
  exists w',
    prune_stored_flowfiles fixture_DeSerialize fixture = Some w'
    /\ db_ w' = fixture_store.
Proof.
  destruct (prune_stored_flowfiles fixture_DeSerialize fixture) as [w'|] eqn:P;
    [|vm_compute in P; discriminate P].
  exists w'. split; [reflexivity|].
  exact (proj1 (recovery_leaves_store_to_flush fixture_DeSerialize 500 fixture w' P)).
Defined.

(** ** The further properties on the fixture *)

Lemma flush_no_readable_key_lost_witness :
  keys_intact fixture_failing
  /\ "K1" ∈ keys_to_delete fixture_failing
  /\ read_ok fixture_failing "K1" = true
  /\ ("K1" ∈ keys_to_delete (flush fixture_DeSerialize 500 fixture_failing)
      \/ db_lookup "K1" (db_ (flush fixture_DeSerialize 500 fixture_failing)) = None).
Proof.
  assert (H : "K1" ∈ ["K1"; "K4"; "K9"; "K2"]) by left.
  split; [exact fixture_failing_intact|]. split; [exact H|]. split; [reflexivity|].
  exact (flush_no_readable_key_lost fixture_DeSerialize 500 fixture_failing "K1"
           fixture_failing_intact H eq_refl).
Defined.

Lemma flush_committed_deletes_exactly_witness :
  take 3 (write_faults fixture_queued) <> [true; true; true]
  /\ keys_to_delete (flush fixture_DeSerialize 500 fixture_queued) = []
  /\ db_lookup "K2" (db_ (flush fixture_DeSerialize 500 fixture_queued)) = None
  /\ db_lookup "K3" (db_ (flush fixture_DeSerialize 500 fixture_queued)) = Some "v3".
Proof.
  assert (H : take 3 (write_faults fixture_queued) <> [true; true; true])
    by discriminate.
  split; [exact H|].
  destruct (flush_committed_deletes_exactly fixture_DeSerialize 500 fixture_queued H)
    as [Q D].
  split; [exact Q|]. split; [exact (D "K2")|exact (D "K3")].
Defined.

Lemma flush_releases_in_queue_order_witness :
  take 3 (write_faults fixture_queued) <> [true; true; true]
  /\ content_repo_ fixture_queued = true
  /\ exists noise,
       trace (flush fixture_DeSerialize 500 fixture_queued)
       = trace fixture_queued ++ noise
           ++ [db_Write ["K1"; "K4"; "K2"] OK;
               removeIfOrphaned "claim1"; removeIfOrphaned "claim2"].
Proof.
  assert (H : take 3 (write_faults fixture_queued) <> [true; true; true])
    by discriminate.
  split; [exact H|]. split; [reflexivity|].
  destruct (flush_releases_in_queue_order fixture_DeSerialize 500 fixture_queued
              H eq_refl) as (noise & _ & T).
  exists noise. exact T.
Defined.

Lemma flush_without_content_repo_witness :
  content_repo_ (with_content_repo_ false fixture_queued) = false
  /\ db_lookup "K1"
       (db_ (flush fixture_DeSerialize 500 (with_content_repo_ false fixture_queued)))
     = None
  /\ exists l,
       trace (flush fixture_DeSerialize 500 (with_content_repo_ false fixture_queued))
       = trace fixture_queued ++ l
       /\ forall e, e ∈ l -> is_content_call e = false.
Proof.
  split; [reflexivity|].
  destruct (flush_without_content_repo fixture_DeSerialize 500
              (with_content_repo_ false fixture_queued) eq_refl)
    as [D T]; [discriminate|].
  split; [|exact T].
  apply D; [left|reflexivity].
Defined.

Lemma flush_stale_keys_vanish_witness :
  keys_intact fixture_stale
  /\ keys_to_delete (flush fixture_DeSerialize 500 fixture_stale) = []
  /\ db_ (flush fixture_DeSerialize 500 fixture_stale) = fixture_store.
Proof.
  split; [exact fixture_stale_intact|].
  destruct (flush_stale_keys_vanish fixture_DeSerialize 500 fixture_stale
              fixture_stale_intact) as (Q & D & _).
  - intros key Hk. cbn in Hk.
    apply elem_of_cons in Hk as [->|Hk]; [reflexivity|].
    apply elem_of_cons in Hk as [->|Hk]; [reflexivity|].
    inversion Hk.
  - split; [exact Q|exact D].
Defined.

Lemma recovery_delivers_or_schedules_each_entry_witness :
  checkpoint_ fixture = true /\ content_repo_ fixture = true
  /\ exists w' calls scheduled,
       prune_stored_flowfiles fixture_DeSerialize fixture = Some w'
       /\ trace w' = calls
       /\ keys_to_delete w' = scheduled
       /\ (length (List.filter is_delivery calls) + length scheduled = 4)%nat.
Proof.
  split; [reflexivity|]. split; [reflexivity|].
  destruct (recovery_delivers_or_schedules_each_entry fixture_DeSerialize fixture
              eq_refl eq_refl) as (w' & calls & scheduled & P & T & Q & _ & L).
  exists w', calls, scheduled. auto.
Defined.

Lemma recovery_without_content_repo_witness :
  checkpoint_ (with_content_repo_ false fixture) = true
  /\ content_repo_ (with_content_repo_ false fixture) = false
  /\ prune_stored_flowfiles fixture_DeSerialize (with_content_repo_ false fixture) = None.
Proof.
  split; [reflexivity|]. split; [reflexivity|].
  apply (recovery_without_content_repo fixture_DeSerialize
           (with_content_repo_ false fixture) eq_refl eq_refl).
  exists ("K2", "v2"). split; [right; left|reflexivity].
Defined.

Lemma recovery_reads_store_as_initialized_witness :
  db_ (with_checkpoint_ false fixture) <> []
  /\ checkpoint_ (initialize_repository (with_checkpoint_ false fixture)) = true
  /\ stored_database_ (initialize_repository (with_checkpoint_ false fixture))
     = fixture_store.
Proof.
  assert (H : db_ (with_checkpoint_ false fixture) <> []) by discriminate.
  split; [exact H|].
  destruct (recovery_reads_store_as_initialized fixture_DeSerialize
              (with_checkpoint_ false fixture) H) as (C & S & _);
    [cbn; lia|reflexivity|reflexivity|].
  split; [exact C|exact S].
Defined.

Lemma recovery_skipped_without_checkpoint_witness :
  checkpoint_ fixture_uninitialized = false
  /\ delete_dir_rc fixture_uninitialized < 0
  /\ checkpoint_ (initialize_repository fixture_uninitialized) = false
  /\ prune_stored_flowfiles fixture_DeSerialize
       (initialize_repository fixture_uninitialized)
     = Some (initialize_repository fixture_uninitialized).
Proof.
  assert (H : delete_dir_rc fixture_uninitialized < 0) by (cbn; lia).
  split; [reflexivity|]. split; [exact H|].
  destruct (recovery_skipped_without_checkpoint fixture_DeSerialize
              fixture_uninitialized eq_refl (or_intror (or_introl H)))
    as (C & P & _).
  split; [exact C|exact P].
Defined.

Lemma recover_then_flush_keeps_delivered_witness :
  NoDup (map fst (db_ fixture))
  /\ exists w1,
       prune_stored_flowfiles fixture_DeSerialize fixture = Some w1
       /\ db_ (flush fixture_DeSerialize 500 w1) = [("K1", "v1")]
       /\ keys_to_delete (flush fixture_DeSerialize 500 w1) = [].
Proof.
  assert (H : NoDup (map fst (db_ fixture)))
    by (apply (bool_decide_unpack _); vm_compute; exact I).
  split; [exact H|].
  destruct (recover_then_flush_keeps_delivered fixture_DeSerialize 500 fixture
              H eq_refl eq_refl eq_refl eq_refl eq_refl) as (w1 & P & D & Q);
    [discriminate|].
  exists w1. split; [exact P|]. split; [exact D|exact Q].
Defined.

Lemma run_recovers_before_flushing_witness :
  exists w1 w' flushed,
    run fixture_DeSerialize 500 100 [true; true; false] fixture = Some w'
    /\ prune_stored_flowfiles fixture_DeSerialize fixture = Some w1
    /\ trace w1
       = [Connection_put 7%nat
            (mkFlowFileRecord "K1" "C" "/content/1" (Some "claim1") true);
          content_remove "claim2"]
    /\ trace w' = trace w1 ++ sleep_for 100 :: flushed.
Proof.
  destruct (run fixture_DeSerialize 500 100 [true; true; false] fixture)
    as [w'|] eqn:R; [|vm_compute in R; discriminate R].
  destruct (run_recovers_before_flushing fixture_DeSerialize 500 100
              [true; true; false] fixture w' R)
    as (w1 & recovered & flushed & P & _ & _ & T & _ & _ & S & _ & _).
  destruct (S eq_refl) as (l & ->).
  exists w1, w', l. split; [reflexivity|]. split; [exact (P eq_refl)|].
  split; [|exact T].
  pose proof (P eq_refl) as P1. vm_compute in P1. injection P1 as <-. reflexivity.
Defined.

Lemma run_store_only_shrinks_witness :
  exists w',
    run fixture_DeSerialize 500 100 [true; true; false] fixture = Some w'
    /\ db_lookup "K1" (db_ w') = Some "v1"
    /\ db_lookup "K1" (db_ fixture) = Some "v1".
Proof.
  destruct (run fixture_DeSerialize 500 100 [true; true; false] fixture)
    as [w'|] eqn:R; [|vm_compute in R; discriminate R].
  assert (L : db_lookup "K1" (db_ w') = Some "v1")
    by (vm_compute in R; injection R as <-; reflexivity).
  exists w'. split; [reflexivity|]. split; [exact L|].
  exact (run_store_only_shrinks fixture_DeSerialize 500 100
           [true; true; false] fixture w' "K1" "v1" R L).
Defined.

(** * QueryDatabaseTable *)

(** ** Searching in a string *)

Lemma find_first_skip (a what' rest : std_string) c :
  c ∉ a ->
  find_first (c :: what') (a ++ (c :: what') ++ rest) = Some (length a).
Proof.
  intros Hc. induction a as [|x a IH]; cbn [app length find_first].
  - rewrite decide_True; [reflexivity|]. by exists rest.
  - apply not_elem_of_cons in Hc as [Hx Hc].
    rewrite decide_False.
    + cbn [app] in IH. by rewrite (IH Hc).
    + intros H. apply prefix_cons_inv_1 in H. congruence.
Qed.

Lemma find_first_absent (what' s : std_string) c :
  c ∉ s -> find_first (c :: what') s = None.
Proof.
  intros Hc. induction s as [|x s IH]; cbn [find_first].
  - rewrite decide_False; [reflexivity|]. intros [k H]. discriminate H.
  - apply not_elem_of_cons in Hc as [Hx Hc].
    rewrite decide_False.
    + by rewrite (IH Hc).
    + intros H. apply prefix_cons_inv_1 in H. congruence.
Qed.

Lemma string_find_skip (p a what rest : std_string) c :
  head what = Some c -> c ∉ a ->
  string_find what (length p) (p ++ a ++ what ++ rest)
  = Some (length p + length a)%nat.
Proof.
  intros Hw Hc. destruct what as [|c' what']; [discriminate|].
  injection Hw as ->. unfold string_find.
  rewrite decide_True by (rewrite length_app; lia).
  rewrite drop_app_length, find_first_skip by exact Hc. reflexivity.
Qed.

Lemma string_find_absent (p s what : std_string) c :
  head what = Some c -> c ∉ s ->
  string_find what (length p) (p ++ s) = None.
Proof.
  intros Hw Hc. destruct what as [|c' what']; [discriminate|].
  injection Hw as ->. unfold string_find.
  rewrite decide_True by (rewrite length_app; lia).
  by rewrite drop_app_length, find_first_absent.
Qed.

Lemma substr_middle (p a rest : std_string) :
  substr (length p) (length a) (p ++ a ++ rest) = a.
Proof. unfold substr. by rewrite drop_app_length, take_app_length. Qed.

(** ** The state file *)

Lemma separator_head : head State.separator = Some "@"%char.
Proof. reflexivity. Qed.

Lemma write_entries m : forall written dataSize,
  fold_left State.write_entry m (written, dataSize)
  = (written ++ State.entries m, (dataSize + length (State.entries m))%nat).
Proof.
  induction m as [|[name value] m IH]; intros written dataSize; cbn [fold_left].
  - cbn. by rewrite app_nil_r, Nat.add_0_r.
  - unfold State.write_entry at 2. cbn [fst snd]. rewrite IH. unfold State.entries.
    cbn [map concat]. rewrite <- !app_assoc. f_equal.
    cbn [fst snd]. rewrite !length_app. change (length (str "=")) with 1%nat. lia.
Qed.

Lemma entries_cons el m :
  State.entries (el :: m)
  = (el.1 ++ str "=" ++ el.2) ++ State.separator ++ State.entries m.
Proof. unfold State.entries. cbn [map concat]. by rewrite <- !app_assoc. Qed.

Lemma length_entries m : (length m <= length (State.entries m))%nat.
Proof.
  induction m as [|el m IH]; [cbn; lia|].
  rewrite entries_cons, !length_app. cbn [length].
  change (length State.separator) with 7%nat. lia.
Qed.

(** Cutting what was written back into its entries. *)
Lemma split_entries m : forall fuel p pad acc,
  (length m < fuel)%nat ->
  (forall name value, (name, value) ∈ m ->
     ("@"%char ∉ name) /\ ("@"%char ∉ value)) ->
  "@"%char ∉ pad ->
  State.split_loop fuel (p ++ State.entries m ++ pad) (length p) acc
  = acc ++ map (fun el => el.1 ++ str "=" ++ el.2) m.
Proof.
  induction m as [|[name value] m IH]; intros fuel p pad acc Hfuel Hm Hpad.
  - cbn [State.entries map concat app]. rewrite app_nil_r.
    destruct fuel as [|fuel]; [reflexivity|]. cbn [State.split_loop].
    by rewrite (string_find_absent p pad _ _ separator_head Hpad).
  - destruct fuel as [|fuel]; [cbn in Hfuel; lia|].
    cbn [State.split_loop map]. rewrite entries_cons. cbn [fst snd].
    set (a := name ++ str "=" ++ value).
    destruct (Hm name value ltac:(left)) as [Hn Hv].
    assert (Ha : "@"%char ∉ a).
    { subst a. rewrite !not_elem_of_app. repeat split; auto.
      cbn. intros H. apply list_elem_of_singleton in H. discriminate H. }
    rewrite <- !app_assoc.
    rewrite (string_find_skip p a _ _ _ separator_head Ha).
    replace (length p + length a - length p)%nat with (length a) by lia.
    rewrite substr_middle.
    replace (length p + length a + length State.separator)%nat
      with (length (p ++ a ++ State.separator))
      by (rewrite !length_app; lia).
    replace (p ++ a ++ State.separator ++ State.entries m ++ pad)
      with ((p ++ a ++ State.separator) ++ State.entries m ++ pad)
      by (by rewrite <- !app_assoc).
    rewrite IH; [by rewrite <- app_assoc|cbn in Hfuel; lia| |exact Hpad].
    intros n v H. apply Hm. by right.
Qed.

Lemma find_absent name (m : unordered_map.t) :
  name ∉ map fst m -> unordered_map.find name m = None.
Proof.
  induction m as [|[n v] m IH]; intros H; cbn; [reflexivity|].
  cbn in H. apply not_elem_of_cons in H as [H1 H2].
  rewrite decide_False by congruence. by apply IH.
Qed.

(** Reading the entries back into a map. *)
Lemma insert_entries m : forall m0,
  (forall name value, (name, value) ∈ m -> "="%char ∉ name) ->
  NoDup (map fst (m0 ++ m)) ->
  State.insert_loop (map (fun el => el.1 ++ str "=" ++ el.2) m) m0
  = Some (m0 ++ m).
Proof.
  induction m as [|[name value] m IH]; intros m0 Hm ND; cbn [map State.insert_loop].
  - by rewrite app_nil_r.
  - cbn [fst snd].
    assert (Hn : "="%char ∉ name) by (eapply Hm; left).
    pose proof (string_find_skip [] name (str "=") value "="%char eq_refl Hn) as F.
    cbn [length app Nat.add] in F. rewrite F.
    pose proof (substr_middle [] name (str "=" ++ value)) as S1.
    cbn [length app] in S1. rewrite S1.
    unfold substr_from.
    replace (drop (length name + 1) (name ++ str "=" ++ value)) with value.
    2:{ rewrite app_assoc.
        replace (length name + 1)%nat with (length (name ++ str "="))
          by (rewrite length_app; reflexivity).
        by rewrite drop_app_length. }
    unfold unordered_map.insert. rewrite find_absent.
    + replace (m0 ++ (name, value) :: m) with ((m0 ++ [(name, value)]) ++ m)
        by (by rewrite <- app_assoc).
      apply IH.
      * intros n v H. eapply Hm. right. exact H.
      * by rewrite <- app_assoc.
    + rewrite map_app in ND. cbn in ND.
      apply NoDup_app in ND as (_ & ND & _).
      intros H. apply (ND name H). left.
Qed.

Lemma spaces_no_at (pad : std_string) :
  (forall c, c ∈ pad -> c = " "%char) -> "@"%char ∉ pad.
Proof. intros H Hin. apply H in Hin. discriminate Hin. Qed.

(** Reading a file that holds a table name, entries and padding. *)
Lemma getStateFromFile_entries st m pad :
  State.mapState_ st = [] ->
  State.storable (State.tableName_ st) m ->
  State.content (State.disk st)
  = Some (State.tableName_ st ++ State.separator ++ State.entries m ++ pad) ->
  "@"%char ∉ pad ->
  State.writable (State.disk st) = true ->
  State.getStateFromFile st
  = (true,
     State.mk m (State.filePath_ st) true
       (length (State.tableName_ st ++ State.separator ++ State.entries m ++ pad))
       (State.tableName_ st) (State.ok_ st) (State.disk st)).
Proof.
  intros M0 (Ht & Hm & ND) C Hpad W.
  unfold State.getStateFromFile. rewrite C.
  set (state := State.tableName_ st ++ State.separator ++ State.entries m ++ pad).
  cbn [State.tableName_ State.with_dataSize_ State.mapState_ State.disk].
  pose proof (string_find_skip [] (State.tableName_ st) State.separator
                (State.entries m ++ pad) _ separator_head Ht) as F.
  cbn [app length Nat.add] in F. fold state in F. rewrite F.
  pose proof (substr_middle [] (State.tableName_ st)
                (State.separator ++ State.entries m ++ pad)) as S1.
  cbn [app length] in S1. fold state in S1. rewrite S1.
  rewrite bool_decide_eq_true_2 by reflexivity. cbn [negb].
  replace (length (State.tableName_ st) + length State.separator)%nat
    with (length (State.tableName_ st ++ State.separator))
    by (by rewrite length_app).
  replace state
    with ((State.tableName_ st ++ State.separator) ++ State.entries m ++ pad) at 2
    by (subst state; by rewrite <- !app_assoc).
  rewrite split_entries; [|..|exact Hpad].
  - cbn [app]. rewrite M0.
    assert (I : State.insert_loop (map (fun el => el.1 ++ str "=" ++ el.2) m) []
                = Some m).
    { apply (insert_entries m []); [|exact ND]. intros n v H. by apply (Hm n v). }
    match goal with
    | |- context [State.insert_loop ?l ?a] =>
        replace (State.insert_loop l a) with (Some m) by (symmetry; exact I)
    end.
    cbn [app State.with_mapState_ State.with_dataSize_ State.disk
         State.mapState_ State.filePath_ State.dataSize_ State.tableName_ State.ok_].
    rewrite W. reflexivity.
  - pose proof (length_entries m). subst state. rewrite !length_app. lia.
  - intros n v H. destruct (Hm n v H) as (? & ? & ?). auto.
Qed.

(** What [writeStateToFile] leaves in an open file. *)
Lemma writeStateToFile_content st m :
  State.consistent st ->
  exists pad,
    (forall c, c ∈ pad -> c = " "%char)
    /\ State.writeStateToFile m st
       = State.mk m (State.filePath_ st) true
           (length (State.tableName_ st ++ State.separator ++ State.entries m))
           (State.tableName_ st) (State.ok_ st)
           (State.mkDisk (State.is_directory (State.disk st))
              (Some (State.tableName_ st ++ State.separator ++ State.entries m ++ pad))
              true).
Proof.
  intros (O & W & old & C & Hold).
  unfold State.writeStateToFile. rewrite write_entries, O, W, C. cbn [default].
  set (written := State.tableName_ st ++ State.separator ++ State.entries m).
  replace ((State.tableName_ st ++ State.separator) ++ State.entries m)
    with written by (subst written; by rewrite <- app_assoc).
  replace (length (State.tableName_ st) + length State.separator
           + length (State.entries m))%nat
    with (length written) by (subst written; rewrite !length_app; lia).
  destruct (decide (length written < State.dataSize_ st)%nat) as [L|L].
  - exists (replicate (State.dataSize_ st - length written) " "%char
            ++ drop (State.dataSize_ st) old).
    split.
    + intros c [Hc|Hc]%elem_of_app; [|by apply Hold].
      by apply elem_of_replicate in Hc as [-> _].
    + unfold State.overwrite. rewrite length_app, length_replicate.
      replace (length written + (State.dataSize_ st - length written))%nat
        with (State.dataSize_ st) by lia.
      subst written. by rewrite <- !app_assoc.
  - exists (drop (length written) old). split.
    + intros c Hc. apply Hold.
      replace (length written)
        with (State.dataSize_ st + (length written - State.dataSize_ st))%nat
        in Hc by lia.
      rewrite <- drop_drop in Hc. eapply subseteq_drop, Hc.
    + unfold State.overwrite. subst written. by rewrite <- !app_assoc.
Qed.

Lemma State_unfold dirSeparator tableName stateDir uuid d :
  stateDir <> [] -> State.is_directory d = true ->
  exists path,
    State.State dirSeparator tableName stateDir uuid d
    = (let r := State.getStateFromFile
                  (State.mk [] path false 0 tableName false d) in
       if negb (fst r) then snd r
       else State.mk (State.mapState_ (snd r)) (State.filePath_ (snd r))
              (State.file_is_open (snd r)) (State.dataSize_ (snd r))
              (State.tableName_ (snd r)) true (State.disk (snd r))).
Proof.
  intros Hdir D.
  exists (snd (State.createUUIDDir dirSeparator stateDir uuid d) ++ str "State.txt").
  unfold State.State.
  assert (E : fst (State.createUUIDDir dirSeparator stateDir uuid d) = true).
  { unfold State.createUUIDDir. destruct stateDir; [congruence|]. by rewrite D. }
  destruct (State.createUUIDDir dirSeparator stateDir uuid d) as [created dir].
  cbn [fst snd] in *. subst created. cbn [negb].
  cbn [State.mapState_ State.filePath_ State.file_is_open State.dataSize_
       State.tableName_ State.ok_ State.disk].
  destruct (State.getStateFromFile _) as [read st]. reflexivity.
Qed.

(** X14: what [writeStateToFile] writes, a new [State] reads back.
    From a [State] whose file is open and padded with spaces only,
    writing a map the format can hold leaves such a [State] again, and a
    [State] constructed afterwards on the same file, for the same table,
    is ok and holds exactly the map written, whatever was in the file
    before. *)
Theorem State_write_then_read dirSeparator stateDir uuid st m :
  State.consistent st -> State.storable (State.tableName_ st) m ->
  stateDir <> [] -> State.is_directory (State.disk st) = true ->
  State.consistent (State.writeStateToFile m st)
  /\ State.mapState (State.writeStateToFile m st) = m
  /\ State.ok_ (State.State dirSeparator (State.tableName_ st) stateDir uuid
                  (State.disk (State.writeStateToFile m st))) = true
  /\ State.mapState (State.State dirSeparator (State.tableName_ st) stateDir uuid
                       (State.disk (State.writeStateToFile m st))) = m
  /\ State.disk (State.State dirSeparator (State.tableName_ st) stateDir uuid
                   (State.disk (State.writeStateToFile m st)))
     = State.disk (State.writeStateToFile m st).
Proof.
  intros Hc Hs Hdir D.
  destruct (writeStateToFile_content st m Hc) as (pad & Hpad & ->).
  split; [|split; [reflexivity|]].
  - unfold State.consistent.
    cbn [State.file_is_open State.disk State.writable State.content State.dataSize_].
    split; [reflexivity|]. split; [reflexivity|].
    eexists. split; [reflexivity|].
    replace (State.tableName_ st ++ State.separator ++ State.entries m ++ pad)
      with ((State.tableName_ st ++ State.separator ++ State.entries m) ++ pad)
      by (by rewrite <- !app_assoc).
    by rewrite drop_app_length.
  - cbn [State.disk].
    set (d := State.mkDisk _ _ _).
    destruct (State_unfold dirSeparator (State.tableName_ st) stateDir uuid d
                Hdir D) as (path & ->).
    rewrite (getStateFromFile_entries _ m pad); cbn; auto using spaces_no_at.
Qed.

Lemma find_first_bound what : forall s n,
  find_first what s = Some n -> (n + length what <= length s)%nat.
Proof.
  induction s as [|x s IH]; intros n; cbn [find_first].
  - destruct (decide _) as [P|P]; [|discriminate].
    intros [= <-]. apply prefix_length in P. lia.
  - destruct (decide _) as [P|P].
    + intros [= <-]. apply prefix_length in P. lia.
    + destruct (find_first what s) as [k|] eqn:E; [|discriminate].
      cbn. intros [= <-]. specialize (IH k eq_refl). cbn [length]. lia.
Qed.

Lemma string_find_bound what pos s n :
  string_find what pos s = Some n ->
  (pos <= n)%nat /\ (n + length what <= length s)%nat.
Proof.
  unfold string_find. destruct (decide _) as [L|L]; [|discriminate].
  destruct (find_first what (drop pos s)) as [k|] eqn:E; [|discriminate].
  cbn. intros [= <-]. apply find_first_bound in E.
  rewrite length_drop in E. lia.
Qed.

(** The cutting loop needs no more rounds than the characters left. *)
Lemma split_loop_fuel state : forall fuel fuel' pos acc,
  (length state - pos < fuel)%nat -> (length state - pos < fuel')%nat ->
  State.split_loop fuel state pos acc = State.split_loop fuel' state pos acc.
Proof.
  induction fuel as [|fuel IH]; intros fuel' pos acc H H'; [lia|].
  destruct fuel' as [|fuel']; [lia|]. cbn [State.split_loop].
  destruct (string_find State.separator pos state) as [newPos|] eqn:F;
    [|reflexivity].
  apply string_find_bound in F as [F1 F2].
  change (length State.separator) with 7%nat in *.
  apply IH; lia.
Qed.

Lemma split_loop_grows state : forall fuel pos acc,
  exists l, State.split_loop fuel state pos acc = acc ++ l.
Proof.
  induction fuel as [|fuel IH]; intros pos acc; cbn [State.split_loop].
  - exists []. by rewrite app_nil_r.
  - destruct (string_find State.separator pos state) as [newPos|].
    + destruct (IH (newPos + length State.separator)%nat
                   (acc ++ [substr pos (newPos - pos) state])) as [l ->].
      eexists. by rewrite <- app_assoc.
    + exists []. by rewrite app_nil_r.
Qed.

Lemma split_entries_more m : forall fuel p tail acc,
  (forall name value, (name, value) ∈ m ->
     ("@"%char ∉ name) /\ ("@"%char ∉ value)) ->
  State.split_loop (length m + fuel) (p ++ State.entries m ++ tail) (length p) acc
  = State.split_loop fuel (p ++ State.entries m ++ tail)
      (length (p ++ State.entries m))
      (acc ++ map (fun el => el.1 ++ str "=" ++ el.2) m).
Proof.
  induction m as [|[name value] m IH]; intros fuel p tail acc Hm.
  - cbn [State.entries map concat app length Nat.add]. by rewrite !app_nil_r.
  - cbn [length Nat.add State.split_loop map]. rewrite entries_cons. cbn [fst snd].
    set (a := name ++ str "=" ++ value).
    destruct (Hm name value ltac:(left)) as [Hn Hv].
    assert (Ha : "@"%char ∉ a).
    { subst a. rewrite !not_elem_of_app. repeat split; auto.
      cbn. intros H. apply list_elem_of_singleton in H. discriminate H. }
    rewrite <- !app_assoc.
    rewrite (string_find_skip p a _ _ _ separator_head Ha).
    replace (length p + length a - length p)%nat with (length a) by lia.
    rewrite substr_middle.
    replace (length p + length a + length State.separator)%nat
      with (length (p ++ a ++ State.separator))
      by (rewrite !length_app; lia).
    replace (p ++ a ++ State.separator ++ State.entries m ++ tail)
      with ((p ++ a ++ State.separator) ++ State.entries m ++ tail)
      by (by rewrite <- !app_assoc).
    rewrite IH by (intros n v H; apply Hm; by right).
    by rewrite <- !app_assoc.
Qed.

Lemma insert_loop_app l1 : forall l2 m0,
  State.insert_loop (l1 ++ l2) m0
  = State.insert_loop l1 m0 ≫= State.insert_loop l2.
Proof.
  induction l1 as [|x l1 IH]; intros l2 m0; cbn [app State.insert_loop].
  - reflexivity.
  - destruct (string_find (str "=") 0 x); [apply IH|reflexivity].
Qed.

Lemma reset_state path tableName n d :
  State.writable d = true ->
  State.createEmptyStateFile
    (State.clear (State.with_dataSize_ n (State.mk [] path false 0 tableName false d)))
  = (true, State.mk [] path true 0 tableName false
             (State.mkDisk (State.is_directory d) (Some []) true)).
Proof. intros W. unfold State.createEmptyStateFile. cbn. by rewrite W. Qed.

(** X15: a state file written for another table is discarded: the new
    [State] is ok, holds no entry, and the file has been emptied. *)
Theorem State_discards_other_table dirSeparator tableName stateDir uuid d other rest :
  stateDir <> [] -> State.is_directory d = true -> State.writable d = true ->
  State.content d = Some (other ++ State.separator ++ rest) ->
  "@"%char ∉ other -> other <> tableName ->
  State.ok_ (State.State dirSeparator tableName stateDir uuid d) = true
  /\ State.mapState (State.State dirSeparator tableName stateDir uuid d) = []
  /\ State.dataSize_ (State.State dirSeparator tableName stateDir uuid d) = 0%nat
  /\ State.content (State.disk (State.State dirSeparator tableName stateDir uuid d))
     = Some [].
Proof.
  intros Hdir D W C Ho Hne.
  destruct (State_unfold dirSeparator tableName stateDir uuid d Hdir D) as (path & ->).
  assert (G : State.getStateFromFile (State.mk [] path false 0 tableName false d)
              = (true, State.mk [] path true 0 tableName false
                         (State.mkDisk (State.is_directory d) (Some []) true))).
  { unfold State.getStateFromFile. cbn [State.disk]. rewrite C.
    pose proof (string_find_skip [] other State.separator rest _ separator_head Ho) as F.
    cbn [app length Nat.add] in F. rewrite F.
    pose proof (substr_middle [] other (State.separator ++ rest)) as S1.
    cbn [app length] in S1. rewrite S1.
    cbn [State.tableName_ State.with_dataSize_].
    rewrite bool_decide_eq_false_2 by exact Hne. cbn [negb].
    by apply reset_state. }
  rewrite G. cbn. auto.
Qed.

(** X16: one entry without ['='] discards the whole state file, the
    entries before it included: the new [State] is ok, holds no entry,
    and the file has been emptied. *)
Theorem State_discards_malformed_file dirSeparator stateDir uuid d tableName m junk rest :
  stateDir <> [] -> State.is_directory d = true -> State.writable d = true ->
  State.storable tableName m ->
  "@"%char ∉ junk -> "="%char ∉ junk ->
  State.content d
  = Some (tableName ++ State.separator ++ State.entries m
            ++ junk ++ State.separator ++ rest) ->
  State.ok_ (State.State dirSeparator tableName stateDir uuid d) = true
  /\ State.mapState (State.State dirSeparator tableName stateDir uuid d) = []
  /\ State.content (State.disk (State.State dirSeparator tableName stateDir uuid d))
     = Some [].
Proof.
  intros Hdir D W (Ht & Hm & ND) Hj1 Hj2 C.
  destruct (State_unfold dirSeparator tableName stateDir uuid d Hdir D) as (path & ->).
  set (state := tableName ++ State.separator ++ State.entries m
                  ++ junk ++ State.separator ++ rest) in *.
  assert (G : State.getStateFromFile (State.mk [] path false 0 tableName false d)
              = (true, State.mk [] path true 0 tableName false
                         (State.mkDisk (State.is_directory d) (Some []) true))).
  { unfold State.getStateFromFile. cbn [State.disk]. rewrite C.
    pose proof (string_find_skip [] tableName State.separator
                  (State.entries m ++ junk ++ State.separator ++ rest)
                  _ separator_head Ht) as F.
    cbn [app length Nat.add] in F. fold state in F. rewrite F.
    pose proof (substr_middle [] tableName
                  (State.separator ++ State.entries m ++ junk
                     ++ State.separator ++ rest)) as S1.
    cbn [app length] in S1. fold state in S1. rewrite S1.
    cbn [State.tableName_ State.with_dataSize_ State.mapState_].
    rewrite bool_decide_eq_true_2 by reflexivity. cbn [negb].
    set (p := tableName ++ State.separator).
    assert (Es : state = p ++ State.entries m ++ junk ++ State.separator ++ rest)
      by (subst state p; by rewrite <- !app_assoc).
    assert (L : exists l,
               State.split_loop (S (length state)) state
                 (length tableName + length State.separator) []
               = map (fun el => el.1 ++ str "=" ++ el.2) m ++ junk :: l).
    { rewrite (split_loop_fuel state _ (length m + S (length state)))
        by (rewrite Es, !length_app; lia).
      replace (length tableName + length State.separator)%nat with (length p)
        by (subst p; by rewrite length_app).
      generalize (length state). intros fuel0. rewrite Es.
      rewrite split_entries_more
        by (intros n v H; destruct (Hm n v H) as (? & ? & ?); auto).
      cbn [State.split_loop app].
      replace (p ++ State.entries m ++ junk ++ State.separator ++ rest)
        with ((p ++ State.entries m) ++ junk ++ State.separator ++ rest)
        by (by rewrite <- !app_assoc).
      rewrite (string_find_skip _ junk _ _ _ separator_head Hj1).
      replace (length (p ++ State.entries m) + length junk
               - length (p ++ State.entries m))%nat with (length junk) by lia.
      rewrite substr_middle.
      destruct (split_loop_grows
                  ((p ++ State.entries m) ++ junk ++ State.separator ++ rest)
                  fuel0
                  (length (p ++ State.entries m) + length junk
                   + length State.separator)%nat
                  (map (fun el => el.1 ++ str "=" ++ el.2) m ++ [junk]))
        as [l E].
      exists l. etransitivity; [exact E|]. by rewrite <- app_assoc. }
    destruct L as [l L].
    match goal with
    | |- context [State.split_loop ?f ?s ?q ?a] =>
        replace (State.split_loop f s q a)
          with (map (fun el => el.1 ++ str "=" ++ el.2) m ++ junk :: l)
          by (symmetry; exact L)
    end.
    rewrite insert_loop_app.
    assert (I : State.insert_loop (map (fun el => el.1 ++ str "=" ++ el.2) m) []
                = Some m).
    { apply (insert_entries m []); [|exact ND]. intros n v H. by apply (Hm n v). }
    match goal with
    | |- context [State.insert_loop (map ?f m) ?a] =>
        replace (State.insert_loop (map f m) a) with (Some m) by (symmetry; exact I)
    end.
    cbn [mbind option_bind State.insert_loop].
    pose proof (string_find_absent [] junk (str "=") _ eq_refl Hj2) as F2.
    cbn [app length] in F2. rewrite F2.
    by apply reset_state. }
  rewrite G. cbn. auto.
Qed.

Lemma createEmptyStateFile_result d st :
  State.mapState_ st = [] -> State.disk st = d -> State.ok_ st = false ->
  State.ok_ (snd (State.createEmptyStateFile st)) = false
  /\ if fst (State.createEmptyStateFile st) then
       State.consistent (snd (State.createEmptyStateFile st))
       /\ State.writable d = true
     else State.mapState_ (snd (State.createEmptyStateFile st)) = []
          /\ State.disk (snd (State.createEmptyStateFile st)) = d.
Proof.
  intros M Dk O. unfold State.createEmptyStateFile. rewrite Dk.
  destruct (State.writable d) eqn:W; cbn [negb fst snd State.ok_ State.mapState_
                                           State.disk].
  - split; [exact O|]. split; [|reflexivity]. unfold State.consistent.
    cbn [State.file_is_open State.disk State.writable State.content State.dataSize_].
    repeat split. exists []. split; [reflexivity|]. intros c Hc. inversion Hc.
  - auto.
Qed.

Lemma getStateFromFile_result path tableName d :
  State.ok_ (snd (State.getStateFromFile (State.mk [] path false 0 tableName false d)))
  = false
  /\ if fst (State.getStateFromFile (State.mk [] path false 0 tableName false d))
     then
       State.consistent
         (snd (State.getStateFromFile (State.mk [] path false 0 tableName false d)))
       /\ State.writable d = true
     else
       State.mapState_
         (snd (State.getStateFromFile (State.mk [] path false 0 tableName false d)))
       = []
       /\ State.disk
            (snd (State.getStateFromFile (State.mk [] path false 0 tableName false d)))
          = d.
Proof.
  unfold State.getStateFromFile. cbn [State.disk].
  destruct (State.content d) as [state|] eqn:C;
    [|by apply createEmptyStateFile_result].
  destruct (string_find State.separator 0 state) as [pos|];
    [|by apply createEmptyStateFile_result].
  cbn [State.tableName_ State.with_dataSize_].
  destruct (bool_decide _); cbn [negb]; [|by apply createEmptyStateFile_result].
  destruct (State.insert_loop _ _) as [m|]; [|by apply createEmptyStateFile_result].
  cbn [State.with_mapState_ State.with_dataSize_ State.disk State.mapState_
       State.filePath_ State.dataSize_ State.tableName_ State.ok_
       State.file_is_open].
  destruct (State.writable d) eqn:W; cbn [negb fst snd State.ok_ State.clear
                                           State.mapState_ State.disk]; [|auto].
  split; [reflexivity|]. split; [|reflexivity]. unfold State.consistent.
  cbn [State.file_is_open State.disk State.dataSize_]. rewrite W, C.
  repeat split. exists state. split; [reflexivity|].
  rewrite drop_all. intros c Hc. inversion Hc.
Qed.

(** X17: a [State] is ok only with a state directory that exists once
    [create_dir] has run and a file that can be written, and then its
    file is open and holds nothing but spaces after the data; a [State]
    that is not ok holds no entry and has left [State.txt] as it was,
    whatever it holds (this says nothing of the directories [create_dir]
    may have made). *)
Theorem State_ok_or_untouched dirSeparator tableName stateDir uuid d :
  (State.ok_ (State.State dirSeparator tableName stateDir uuid d) = true ->
     State.consistent (State.State dirSeparator tableName stateDir uuid d)
     /\ stateDir <> [] /\ State.is_directory d = true /\ State.writable d = true)
  /\ (State.ok_ (State.State dirSeparator tableName stateDir uuid d) = false ->
      State.mapState (State.State dirSeparator tableName stateDir uuid d) = []
      /\ State.content
           (State.disk (State.State dirSeparator tableName stateDir uuid d))
         = State.content d).
Proof.
  destruct (decide (stateDir = [])) as [->|Hdir]; [by split|].
  destruct (State.is_directory d) eqn:D.
  2:{ unfold State.State, State.createUUIDDir.
      destruct stateDir; [congruence|]. rewrite D. by split. }
  destruct (State_unfold dirSeparator tableName stateDir uuid d Hdir D) as (path & ->).
  pose proof (getStateFromFile_result path tableName d) as [O R]. cbn zeta.
  destruct (State.getStateFromFile _) as [[] st]; cbn [fst snd negb] in *.
  - destruct R as [(Op & W & old & C & Hold) Wd]. split; [|discriminate].
    intros _. repeat split; auto. exists old. auto.
  - split; [congruence|]. intros _. destruct R as [M ->]. by split.
Qed.

(** X18: a separator at the end of the state directory makes no
    difference: the [State] is the same, and its file is
    [stateDir/uuid/<uuid>/State.txt]. *)
Theorem State_directory_separator dirSeparator tableName stateDir uuid d :
  stateDir <> [] -> last stateDir <> Some dirSeparator ->
  State.State dirSeparator tableName (stateDir ++ [dirSeparator]) uuid d
  = State.State dirSeparator tableName stateDir uuid d
  /\ (State.is_directory d = true ->
      State.filePath_ (State.State dirSeparator tableName stateDir uuid d)
      = stateDir ++ [dirSeparator] ++ str "uuid" ++ [dirSeparator] ++ uuid
          ++ [dirSeparator] ++ str "State.txt").
Proof.
  intros Hdir Hlast.
  assert (E : State.createUUIDDir dirSeparator (stateDir ++ [dirSeparator]) uuid d
              = State.createUUIDDir dirSeparator stateDir uuid d).
  { unfold State.createUUIDDir.
    destruct stateDir as [|c stateDir]; [congruence|]. cbn [app].
    change (c :: stateDir ++ [dirSeparator]) with ((c :: stateDir) ++ [dirSeparator]).
    rewrite last_snoc, decide_True by reflexivity.
    by rewrite decide_False by exact Hlast. }
  split.
  - unfold State.State. by rewrite E.
  - intros D. unfold State.State, State.createUUIDDir.
    destruct stateDir as [|c stateDir]; [congruence|].
    rewrite decide_False by exact Hlast. rewrite D. cbn [negb].
    cbn [State.mapState_ State.filePath_ State.file_is_open State.dataSize_
         State.tableName_ State.ok_ State.disk].
    assert (P : forall st, State.filePath_ (snd (State.getStateFromFile st))
                           = State.filePath_ st).
    { intros st. unfold State.getStateFromFile, State.createEmptyStateFile.
      repeat (match goal with
              | |- context [match ?x with _ => _ end] => destruct x
              end; cbn; try reflexivity). }
    match goal with
    | |- context [State.getStateFromFile ?s] =>
        specialize (P s); destruct (State.getStateFromFile s) as [[] st']
    end; cbn [negb snd State.filePath_] in *; rewrite P;
      by rewrite <- !app_assoc.
Qed.

(** ** The select query *)

Lemma where_loop_returns columns m : forall index whereClauses,
  is_Some (QueryDatabaseTable.where_loop index columns m whereClauses)
  <-> forall c, c ∈ columns -> is_Some (unordered_map.find c m).
Proof.
  induction columns as [|c columns IH]; intros index whereClauses;
    cbn [QueryDatabaseTable.where_loop].
  - split; [|done]. intros _ c Hc. inversion Hc.
  - destruct (unordered_map.find c m) as [[|x maxValue]|] eqn:F.
    + rewrite IH. split.
      * intros H c' [->|Hc]%elem_of_cons; [by rewrite F|by apply H].
      * intros H c' Hc. apply H. by right.
    + rewrite IH. split.
      * intros H c' [->|Hc]%elem_of_cons; [by rewrite F|by apply H].
      * intros H c' Hc. apply H. by right.
    + split; [by intros [? [=]]|].
      intros H. specialize (H c ltac:(left)). rewrite F in H. by destruct H.
Qed.

(** X19: [getSelectQuery] dereferences the iterator that
    [mapState_.find] returns without comparing it to [end()]: it returns
    a query exactly when [mapState_] is empty or holds every listed
    maximum-value column. *)
Theorem getSelectQuery_returns q :
  is_Some (QueryDatabaseTable.getSelectQuery q)
  <-> QueryDatabaseTable.mapState_ q = []
      \/ forall c, c ∈ QueryDatabaseTable.listMaxValueColumnName_ q ->
           is_Some (unordered_map.find c (QueryDatabaseTable.mapState_ q)).
Proof.
  unfold QueryDatabaseTable.getSelectQuery.
  destruct (QueryDatabaseTable.mapState_ q) as [|el m] eqn:M; cbn [QueryDatabaseTable.is_empty negb andb].
  { cbn. split; [by left|done]. }
  destruct (QueryDatabaseTable.listMaxValueColumnName_ q) as [|c columns] eqn:L;
    cbn [QueryDatabaseTable.is_empty negb andb].
  { cbn. split; [|done]. intros _. right. intros c Hc. inversion Hc. }
  pose proof (where_loop_returns (c :: columns) (el :: m) 0 []) as W.
  destruct (QueryDatabaseTable.where_loop 0 (c :: columns) (el :: m) [])
    as [whereClauses|]; cbn [mbind option_bind].
  - split; [|done]. intros _. right. by apply W.
  - split; [by intros [? [=]]|]. intros [[=]|H]. by apply W in H as [? [=]].
Qed.

Lemma where_loop_later columns m : forall index whereClauses r,
  QueryDatabaseTable.where_loop (S index) columns m whereClauses = Some r ->
  r = whereClauses \/ exists rest, r = whereClauses ++ str " and " ++ rest.
Proof.
  induction columns as [|c columns IH]; intros index whereClauses r;
    cbn [QueryDatabaseTable.where_loop].
  - intros [= <-]. by left.
  - destruct (unordered_map.find c m) as [[|x maxValue]|]; [| |discriminate].
    + apply IH.
    + rewrite decide_False by lia. intros H. right.
      apply IH in H as [->|[rest ->]]; eexists; rewrite <- !app_assoc; reflexivity.
Qed.

(** X20: when no maximum value is recorded for the first listed column
    (or no column is tracked at all), every condition of the query is
    introduced by [" and "]: the query is the base query alone, which
    needs an empty custom where clause, or the base query followed by
    [" where  and "]. *)
Theorem getSelectQuery_without_first_maximum q s :
  QueryDatabaseTable.getSelectQuery q = Some s ->
  QueryDatabaseTable.mapState_ q = []
  \/ hd_error (QueryDatabaseTable.listMaxValueColumnName_ q) = None
  \/ (exists c, hd_error (QueryDatabaseTable.listMaxValueColumnName_ q) = Some c
        /\ unordered_map.find c (QueryDatabaseTable.mapState_ q) = Some []) ->
  s = QueryDatabaseTable.base_query q /\ QueryDatabaseTable.whereClause_ q = []
  \/ exists rest,
       s = QueryDatabaseTable.base_query q ++ str " where " ++ str " and " ++ rest.
Proof.
  unfold QueryDatabaseTable.getSelectQuery. fold (QueryDatabaseTable.base_query q).
  intros G H.
  match type of G with
  | context [mbind _ ?x] => set (wl := x) in G
  end.
  assert (W : exists whereClauses,
            wl = Some whereClauses
            /\ (whereClauses = []
                \/ exists rest, whereClauses = str " and " ++ rest)).
  { destruct wl as [r|] eqn:E; [|discriminate G].
    exists r. split; [reflexivity|]. subst wl.
    destruct (QueryDatabaseTable.mapState_ q) as [|el m] eqn:M;
      cbn [QueryDatabaseTable.is_empty negb andb] in E; [injection E as <-; by left|].
    destruct (QueryDatabaseTable.listMaxValueColumnName_ q) as [|c columns] eqn:L;
      cbn [QueryDatabaseTable.is_empty negb andb] in E; [injection E as <-; by left|].
    destruct H as [[=]|[[=]|(c' & [= <-] & F)]].
    cbn [QueryDatabaseTable.where_loop] in E. rewrite F in E.
    by apply where_loop_later in E. }
  destruct W as (whereClauses & E & W). rewrite E in G.
  cbn [mbind option_bind] in G.
  injection G as <-.
  destruct (QueryDatabaseTable.whereClause_ q) as [|x whereClause] eqn:WC;
    cbn [QueryDatabaseTable.is_empty negb].
  - destruct W as [->|[rest ->]]; cbn [QueryDatabaseTable.is_empty negb].
    + by left.
    + right. exists rest. reflexivity.
  - right. destruct W as [->|[rest ->]].
    + exists (x :: whereClause). reflexivity.
    + exists (rest ++ str " and " ++ x :: whereClause).
      cbn [app]. rewrite <- !app_assoc. reflexivity.
Qed.

Lemma where_loop_recorded m columns : forall values index whereClauses,
  Forall2 (fun c v => unordered_map.find c m = Some v /\ v <> []) columns values ->
  QueryDatabaseTable.where_loop (S index) columns m whereClauses
  = Some (whereClauses
            ++ concat (zip_with (fun c v => str " and " ++ c ++ str " >= " ++ v)
                                columns values)).
Proof.
  induction columns as [|c columns IH]; intros values index whereClauses H;
    inversion H as [|? v ? values' [F Hv] H']; subst;
    cbn [QueryDatabaseTable.where_loop zip_with concat].
  - by rewrite app_nil_r.
  - rewrite F. destruct v as [|x v]; [congruence|].
    rewrite decide_False by lia. rewrite (IH _ _ _ H').
    by rewrite <- !app_assoc.
Qed.

(** X21: when a maximum value is recorded for every listed column, the
    query compares the first column with [" > "] and each later one
    with [" >= "], joined by [" and "], and the custom where clause
    follows, again after [" and "]. *)
Theorem getSelectQuery_all_recorded q c0 v0 columns values :
  QueryDatabaseTable.listMaxValueColumnName_ q = c0 :: columns ->
  Forall2 (fun c v =>
             unordered_map.find c (QueryDatabaseTable.mapState_ q) = Some v
             /\ v <> [])
          (c0 :: columns) (v0 :: values) ->
  QueryDatabaseTable.getSelectQuery q
  = Some (QueryDatabaseTable.base_query q ++ str " where "
            ++ c0 ++ str " > " ++ v0
            ++ concat (zip_with (fun c v => str " and " ++ c ++ str " >= " ++ v)
                                columns values)
            ++ (if QueryDatabaseTable.is_empty (QueryDatabaseTable.whereClause_ q)
                then []
                else str " and " ++ QueryDatabaseTable.whereClause_ q)).
Proof.
  intros L H. inversion H as [|? ? ? ? [F Hv] H']; subst.
  unfold QueryDatabaseTable.getSelectQuery. fold (QueryDatabaseTable.base_query q).
  rewrite L.
  destruct (QueryDatabaseTable.mapState_ q) as [|el m] eqn:M; [discriminate F|].
  cbn [QueryDatabaseTable.is_empty negb andb QueryDatabaseTable.where_loop].
  rewrite F. destruct v0 as [|x v0]; [congruence|].
  rewrite decide_True by reflexivity.
  rewrite (where_loop_recorded _ _ _ _ _ H'). cbn [mbind option_bind].
  assert (NE : forall rest : std_string,
             QueryDatabaseTable.is_empty (c0 ++ str " > " ++ rest) = false)
    by (intros rest; destruct c0; reflexivity).
  f_equal.
  destruct (QueryDatabaseTable.whereClause_ q) as [|y whereClause];
    cbn [QueryDatabaseTable.is_empty negb]; rewrite <- ?app_assoc; cbn [app];
    rewrite <- ?app_assoc; rewrite NE; cbn [negb]; rewrite ?app_nil_r;
    reflexivity.
Qed.

(** ** processOnSchedule *)

Lemma find_app name (m m' : unordered_map.t) :
  unordered_map.find name (m ++ m')
  = match unordered_map.find name m with
    | Some v => Some v
    | None => unordered_map.find name m'
    end.
Proof.
  induction m as [|[n v] m IH]; cbn; [reflexivity|].
  destruct (decide (n = name)); [reflexivity|exact IH].
Qed.

Lemma find_elem name value (m : unordered_map.t) :
  unordered_map.find name m = Some value -> (name, value) ∈ m.
Proof.
  induction m as [|[n v] m IH]; cbn; [discriminate|].
  destruct (decide (n = name)) as [->|].
  - intros [= ->]. by left.
  - intros H. right. by apply IH.
Qed.

Lemma find_assign name c value (m : unordered_map.t) :
  unordered_map.find name (unordered_map.assign c value m)
  = if decide (c = name) then
      match unordered_map.find c m with
      | Some _ => Some value
      | None => None
      end
    else unordered_map.find name m.
Proof.
  induction m as [|[n v] m IH]; cbn.
  - by destruct (decide (c = name)).
  - destruct (decide (n = c)) as [->|Hn]; cbn.
    + destruct (decide (c = name)); [reflexivity|reflexivity].
    + rewrite IH. destruct (decide (c = name)) as [->|].
      * by rewrite decide_False by exact Hn.
      * reflexivity.
Qed.

Lemma find_add_new_columns columns : forall m name,
  unordered_map.find name (QueryDatabaseTable.add_new_columns columns m)
  = match unordered_map.find name m with
    | Some v => Some v
    | None => if decide (name ∈ columns) then Some [] else None
    end.
Proof.
  unfold QueryDatabaseTable.add_new_columns.
  induction columns as [|c columns IH]; intros m name; cbn [fold_left].
  - destruct (unordered_map.find name m); [reflexivity|].
    rewrite decide_False; [reflexivity|]. inversion 1.
  - assert (E : (if decide (unordered_map.count c m = 0%nat)
                 then unordered_map.insert c [] m else m)
                = match unordered_map.find c m with
                  | Some _ => m
                  | None => m ++ [(c, [])]
                  end).
    { unfold unordered_map.count, unordered_map.insert.
      destruct (unordered_map.find c m);
        [by rewrite decide_False by lia|by rewrite decide_True by reflexivity]. }
    rewrite IH, E. clear E.
    destruct (unordered_map.find c m) as [vc|] eqn:Fc.
    + destruct (unordered_map.find name m) eqn:Fn; [reflexivity|].
      destruct (decide (name ∈ columns)) as [Hin|Hin].
      * rewrite decide_True; [reflexivity|by right].
      * rewrite decide_False; [reflexivity|].
        intros [->|H]%elem_of_cons; [congruence|contradiction].
    + rewrite find_app. cbn [unordered_map.find].
      destruct (unordered_map.find name m) eqn:Fn; [reflexivity|].
      destruct (decide (c = name)) as [->|Hc].
      * rewrite decide_True; [reflexivity|by left].
      * destruct (decide (name ∈ columns)) as [Hin|Hin].
        -- rewrite decide_True; [reflexivity|by right].
        -- rewrite decide_False; [reflexivity|].
           intros [->|H]%elem_of_cons; [congruence|contradiction].
Qed.

Lemma clear_unless_all_known_keeps columns : forall m : unordered_map.t,
  (forall c, c ∈ columns -> is_Some (unordered_map.find c m)) ->
  QueryDatabaseTable.clear_unless_all_known columns m = m.
Proof.
  induction columns as [|c columns IH]; intros m H;
    cbn [QueryDatabaseTable.clear_unless_all_known]; [reflexivity|].
  unfold unordered_map.count.
  destruct (H c ltac:(left)) as [v ->]. rewrite decide_False by lia.
  apply IH. intros c' Hc. apply H. by right.
Qed.

Lemma clear_unless_all_known_clears columns : forall (m : unordered_map.t) c,
  c ∈ columns -> unordered_map.find c m = None ->
  QueryDatabaseTable.clear_unless_all_known columns m = [].
Proof.
  induction columns as [|c' columns IH]; intros m c Hc F; [inversion Hc|].
  cbn [QueryDatabaseTable.clear_unless_all_known]. unfold unordered_map.count.
  destruct (unordered_map.find c' m) eqn:F'.
  - rewrite decide_False by lia.
    apply elem_of_cons in Hc as [->|Hc]; [congruence|]. by eapply IH.
  - by rewrite decide_True by reflexivity.
Qed.

(** What the loop over the dynamic properties does to the object. *)
Lemma initial_values_effect toLower context keys : forall q,
  let q' := QueryDatabaseTable.after
              (QueryDatabaseTable.initial_values toLower context keys q) in
  QueryDatabaseTable.listMaxValueColumnName_ q'
  = QueryDatabaseTable.listMaxValueColumnName_ q
  /\ forall name,
       match unordered_map.find name (QueryDatabaseTable.mapState_ q) with
       | None => unordered_map.find name (QueryDatabaseTable.mapState_ q') = None
       | Some [] =>
           unordered_map.find name (QueryDatabaseTable.mapState_ q') = Some []
           \/ exists key value,
                (key, value) ∈ QueryDatabaseTable.dynamic_properties context
                /\ unordered_map.find name (QueryDatabaseTable.mapState_ q')
                   = Some value
       | Some v => unordered_map.find name (QueryDatabaseTable.mapState_ q') = Some v
       end.
Proof.
  induction keys as [|key keys IH]; intros q; cbn [QueryDatabaseTable.initial_values].
  - cbn. split; [reflexivity|]. intros name.
    destruct (unordered_map.find name _) as [[|]|]; auto.
  - destruct (bool_decide _); cbn [negb].
    2:{ cbn. split; [reflexivity|]. intros name.
        destruct (unordered_map.find name _) as [[|]|]; auto. }
    set (columnName := toLower _).
    destruct (unordered_map.find columnName (QueryDatabaseTable.mapState_ q))
      as [second|] eqn:F; [|apply IH].
    destruct (bool_decide (second = [])) eqn:B; cbn [negb]; [|apply IH].
    apply bool_decide_eq_true in B. subst second.
    destruct (unordered_map.find key (QueryDatabaseTable.dynamic_properties context))
      as [value|] eqn:Fk; [|apply IH].
    destruct (bool_decide (value = [])) eqn:B; cbn [negb]; [apply IH|].
    apply bool_decide_eq_false in B.
    specialize (IH (QueryDatabaseTable.with_mapState_
                      (unordered_map.assign columnName value
                         (QueryDatabaseTable.mapState_ q)) q)).
    cbn zeta in *. destruct IH as [L IH]. split; [exact L|].
    intros name. specialize (IH name).
    cbn [QueryDatabaseTable.mapState_ QueryDatabaseTable.with_mapState_] in IH.
    rewrite find_assign in IH.
    destruct (decide (columnName = name)) as [<-|Hn].
    + rewrite F in IH |- *. destruct value as [|x value]; [congruence|].
      right. exists key, (x :: value). split; [by apply find_elem|exact IH].
    + exact IH.
Qed.

Section Schedule.

Variable inputStringToList : std_string -> list std_string.
Variable toLower : std_string -> std_string.
Variable getUUIDStr : std_string.
Variable dirSeparator : ascii.

Local Abbreviation processOnSchedule :=
  (QueryDatabaseTable.processOnSchedule inputStringToList toLower getUUIDStr
     dirSeparator).

(** [processOnSchedule] past its two early returns. *)
Lemma processOnSchedule_with_state context d q stateDir :
  QueryDatabaseTable.s_stateDirectory context = Some stateDir ->
  stateDir <> [] ->
  State.ok_ (State.State dirSeparator
               (QueryDatabaseTable.getProperty
                  (QueryDatabaseTable.s_tableName context)
                  (QueryDatabaseTable.tableName_ q))
               stateDir getUUIDStr d) = true ->
  exists q1 m1,
    processOnSchedule context d q
    = QueryDatabaseTable.initial_values toLower context
        (map fst (QueryDatabaseTable.dynamic_properties context))
        (QueryDatabaseTable.with_mapState_
           (QueryDatabaseTable.add_new_columns
              (QueryDatabaseTable.listMaxValueColumnName_ q1) m1) q1)
    /\ QueryDatabaseTable.listMaxValueColumnName_ q1
       = inputStringToList
           (QueryDatabaseTable.getProperty
              (QueryDatabaseTable.s_maxValueColumnNames context)
              (QueryDatabaseTable.maxValueColumnNames_ q))
    /\ m1 = (let stored :=
               State.mapState
                 (State.State dirSeparator
                    (QueryDatabaseTable.getProperty
                       (QueryDatabaseTable.s_tableName context)
                       (QueryDatabaseTable.tableName_ q))
                    stateDir getUUIDStr d) in
             if negb (bool_decide
                        (length (QueryDatabaseTable.listMaxValueColumnName_ q1)
                         = length stored))
             then []
             else QueryDatabaseTable.clear_unless_all_known
                    (QueryDatabaseTable.listMaxValueColumnName_ q1) stored).
Proof.
  intros SD Hdir Ok. unfold QueryDatabaseTable.processOnSchedule.
  rewrite SD.
  change (QueryDatabaseTable.getProperty (Some stateDir) []) with stateDir.
  destruct stateDir as [|x stateDir]; [congruence|].
  cbn [QueryDatabaseTable.tableName_]. rewrite Ok. cbn [negb].
  eexists _, _. split; [reflexivity|]. split; reflexivity.
Qed.

(** The two early returns leave [mapState_] as it was. *)
Lemma processOnSchedule_early context d q :
  QueryDatabaseTable.getProperty (QueryDatabaseTable.s_stateDirectory context) [] = []
  \/ State.ok_ (State.State dirSeparator
                  (QueryDatabaseTable.getProperty
                     (QueryDatabaseTable.s_tableName context)
                     (QueryDatabaseTable.tableName_ q))
                  (QueryDatabaseTable.getProperty
                     (QueryDatabaseTable.s_stateDirectory context) [])
                  getUUIDStr d) = false ->
  exists q1,
    processOnSchedule context d q = QueryDatabaseTable.Returned q1
    /\ QueryDatabaseTable.mapState_ q1 = QueryDatabaseTable.mapState_ q.
Proof.
  intros H. unfold QueryDatabaseTable.processOnSchedule.
  destruct (QueryDatabaseTable.getProperty
              (QueryDatabaseTable.s_stateDirectory context) [])
    as [|x stateDir] eqn:SD.
  - eexists. split; reflexivity.
  - destruct H as [[=]|Ok]. cbn [QueryDatabaseTable.tableName_].
    rewrite Ok. cbn [negb]. eexists. split; reflexivity.
Qed.

Lemma initial_values_throws context keys : forall q,
  (exists q' what,
     QueryDatabaseTable.initial_values toLower context keys q
     = QueryDatabaseTable.Threw q' what)
  <-> exists key, key ∈ keys
        /\ ~ QueryDatabaseTable.s_initialMaxValueDynamicPropertyPrefix `prefix_of` key.
Proof.
  induction keys as [|key keys IH]; intros q; cbn [QueryDatabaseTable.initial_values].
  - split; [by intros (? & ? & [=])|]. intros (key & H & _). inversion H.
  - destruct (bool_decide _) eqn:B; cbn [negb].
    + apply bool_decide_eq_true in B.
      assert (R : forall q0,
                (exists q' what,
                   QueryDatabaseTable.initial_values toLower context keys q0
                   = QueryDatabaseTable.Threw q' what)
                <-> exists key0, key0 ∈ key :: keys
                      /\ ~ QueryDatabaseTable.s_initialMaxValueDynamicPropertyPrefix
                            `prefix_of` key0).
      { intros q0. rewrite IH. split; intros (k & Hk & Hp); exists k.
        - split; [by right|exact Hp].
        - apply elem_of_cons in Hk as [->|Hk]; [contradiction|]. auto. }
      repeat (match goal with
              | |- context [match ?x with _ => _ end] => destruct x
              end; cbn [negb]); apply R.
    + apply bool_decide_eq_false in B. split; [|by eauto].
      intros _. exists key. split; [by left|exact B].
Qed.

(** X22: after a [processOnSchedule] that returned, on a processor whose
    [mapState_] was empty before, [getSelectQuery] returns a query: every
    listed maximum-value column is then in [mapState_]. *)
Theorem processOnSchedule_then_getSelectQuery context d q q' :
  QueryDatabaseTable.mapState_ q = [] ->
  processOnSchedule context d q = QueryDatabaseTable.Returned q' ->
  is_Some (QueryDatabaseTable.getSelectQuery q').
Proof.
  intros M R. apply getSelectQuery_returns.
  destruct (QueryDatabaseTable.s_stateDirectory context) as [[|x stateDir]|] eqn:SD.
  - destruct (processOnSchedule_early context d q) as (q1 & E & M1).
    { left. by rewrite SD. }
    rewrite E in R. injection R as <-. left. congruence.
  - destruct (State.ok_ (State.State dirSeparator
                (QueryDatabaseTable.getProperty
                   (QueryDatabaseTable.s_tableName context)
                   (QueryDatabaseTable.tableName_ q))
                (x :: stateDir) getUUIDStr d)) eqn:Ok.
    + destruct (processOnSchedule_with_state context d q (x :: stateDir) SD
                  ltac:(discriminate) Ok) as (q1 & m1 & E & L & _).
      rewrite E in R. right.
      pose proof (initial_values_effect toLower context
                    (map fst (QueryDatabaseTable.dynamic_properties context))
                    (QueryDatabaseTable.with_mapState_
                       (QueryDatabaseTable.add_new_columns
                          (QueryDatabaseTable.listMaxValueColumnName_ q1) m1) q1))
        as [L' F].
      rewrite R in L', F. cbn [QueryDatabaseTable.after] in L', F.
      cbn [QueryDatabaseTable.with_mapState_ QueryDatabaseTable.mapState_
           QueryDatabaseTable.listMaxValueColumnName_] in L', F.
      intros c Hc. rewrite L' in Hc. specialize (F c).
      rewrite find_add_new_columns in F.
      destruct (unordered_map.find c m1) as [[|y v]|].
      * destruct F as [->|(? & ? & _ & ->)]; done.
      * by rewrite F.
      * rewrite decide_True in F by exact Hc.
        destruct F as [->|(? & ? & _ & ->)]; done.
    + destruct (processOnSchedule_early context d q) as (q1 & E & M1).
      { right. by rewrite SD. }
      rewrite E in R. injection R as <-. left. congruence.
  - destruct (processOnSchedule_early context d q) as (q1 & E & M1).
    { left. by rewrite SD. }
    rewrite E in R. injection R as <-. left. congruence.
Qed.

(** X23: a maximum value recorded in the state file survives
    [processOnSchedule] when the file holds exactly as many columns as
    are listed and every listed one: no [initial.maxvalue.] property
    replaces it. *)
Theorem processOnSchedule_keeps_recorded context d q stateDir name value :
  QueryDatabaseTable.s_stateDirectory context = Some stateDir ->
  stateDir <> [] ->
  State.ok_ (State.State dirSeparator
               (QueryDatabaseTable.getProperty
                  (QueryDatabaseTable.s_tableName context)
                  (QueryDatabaseTable.tableName_ q))
               stateDir getUUIDStr d) = true ->
  length (inputStringToList
            (QueryDatabaseTable.getProperty
               (QueryDatabaseTable.s_maxValueColumnNames context)
               (QueryDatabaseTable.maxValueColumnNames_ q)))
  = length (State.mapState
              (State.State dirSeparator
                 (QueryDatabaseTable.getProperty
                    (QueryDatabaseTable.s_tableName context)
                    (QueryDatabaseTable.tableName_ q))
                 stateDir getUUIDStr d)) ->
  (forall c,
     c ∈ inputStringToList
           (QueryDatabaseTable.getProperty
              (QueryDatabaseTable.s_maxValueColumnNames context)
              (QueryDatabaseTable.maxValueColumnNames_ q)) ->
     is_Some (unordered_map.find c
                (State.mapState
                   (State.State dirSeparator
                      (QueryDatabaseTable.getProperty
                         (QueryDatabaseTable.s_tableName context)
                         (QueryDatabaseTable.tableName_ q))
                      stateDir getUUIDStr d)))) ->
  unordered_map.find name
    (State.mapState
       (State.State dirSeparator
          (QueryDatabaseTable.getProperty
             (QueryDatabaseTable.s_tableName context)
             (QueryDatabaseTable.tableName_ q))
          stateDir getUUIDStr d)) = Some value ->
  value <> [] ->
  unordered_map.find name
    (QueryDatabaseTable.mapState_
       (QueryDatabaseTable.after (processOnSchedule context d q)))
  = Some value.
Proof.
  intros SD Hdir Ok Len All F Hv.
  destruct (processOnSchedule_with_state context d q stateDir SD Hdir Ok)
    as (q1 & m1 & -> & L & M1).
  cbn zeta in M1. rewrite L in M1.
  rewrite bool_decide_eq_true_2 in M1 by exact Len. cbn [negb] in M1.
  rewrite clear_unless_all_known_keeps in M1 by exact All. subst m1.
  pose proof (initial_values_effect toLower context
                (map fst (QueryDatabaseTable.dynamic_properties context))
                (QueryDatabaseTable.with_mapState_
                   (QueryDatabaseTable.add_new_columns
                      (QueryDatabaseTable.listMaxValueColumnName_ q1)
                      (State.mapState
                         (State.State dirSeparator
                            (QueryDatabaseTable.getProperty
                               (QueryDatabaseTable.s_tableName context)
                               (QueryDatabaseTable.tableName_ q))
                            stateDir getUUIDStr d))) q1)) as [_ E].
  specialize (E name).
  cbn [QueryDatabaseTable.with_mapState_ QueryDatabaseTable.mapState_] in E.
  rewrite find_add_new_columns, F in E.
  destruct value as [|x value]; [congruence|]. exact E.
Qed.

(** X24: when the state file holds another number of columns than are
    listed, or lacks a listed column, every recorded maximum value is
    dropped: after [processOnSchedule] the tracked columns are listed
    ones, and the value of each is empty or the value of a dynamic
    property. *)
Theorem processOnSchedule_drops_stale_state context d q stateDir name value :
  QueryDatabaseTable.s_stateDirectory context = Some stateDir ->
  stateDir <> [] ->
  State.ok_ (State.State dirSeparator
               (QueryDatabaseTable.getProperty
                  (QueryDatabaseTable.s_tableName context)
                  (QueryDatabaseTable.tableName_ q))
               stateDir getUUIDStr d) = true ->
  length (inputStringToList
            (QueryDatabaseTable.getProperty
               (QueryDatabaseTable.s_maxValueColumnNames context)
               (QueryDatabaseTable.maxValueColumnNames_ q)))
  <> length (State.mapState
               (State.State dirSeparator
                  (QueryDatabaseTable.getProperty
                     (QueryDatabaseTable.s_tableName context)
                     (QueryDatabaseTable.tableName_ q))
                  stateDir getUUIDStr d))
  \/ (exists c,
        c ∈ inputStringToList
              (QueryDatabaseTable.getProperty
                 (QueryDatabaseTable.s_maxValueColumnNames context)
                 (QueryDatabaseTable.maxValueColumnNames_ q))
        /\ unordered_map.find c
             (State.mapState
                (State.State dirSeparator
                   (QueryDatabaseTable.getProperty
                      (QueryDatabaseTable.s_tableName context)
                      (QueryDatabaseTable.tableName_ q))
                   stateDir getUUIDStr d)) = None) ->
  unordered_map.find name
    (QueryDatabaseTable.mapState_
       (QueryDatabaseTable.after (processOnSchedule context d q)))
  = Some value ->
  name ∈ inputStringToList
           (QueryDatabaseTable.getProperty
              (QueryDatabaseTable.s_maxValueColumnNames context)
              (QueryDatabaseTable.maxValueColumnNames_ q))
  /\ (value = []
      \/ exists key, (key, value) ∈ QueryDatabaseTable.dynamic_properties context).
Proof.
  intros SD Hdir Ok Stale.
  destruct (processOnSchedule_with_state context d q stateDir SD Hdir Ok)
    as (q1 & m1 & -> & L & M1).
  cbn zeta in M1. rewrite L in M1.
  assert (m1 = []) as ->.
  { subst m1. destruct Stale as [Len|(c & Hc & F)].
    - by rewrite bool_decide_eq_false_2 by exact Len.
    - destruct (bool_decide _); cbn [negb]; [|reflexivity].
      by eapply clear_unless_all_known_clears. }
  clear M1.
  pose proof (initial_values_effect toLower context
                (map fst (QueryDatabaseTable.dynamic_properties context))
                (QueryDatabaseTable.with_mapState_
                   (QueryDatabaseTable.add_new_columns
                      (QueryDatabaseTable.listMaxValueColumnName_ q1) []) q1))
    as [_ E].
  specialize (E name).
  cbn [QueryDatabaseTable.with_mapState_ QueryDatabaseTable.mapState_] in E.
  rewrite find_add_new_columns in E. cbn [unordered_map.find] in E.
  intros F. rewrite F in E.
  destruct (decide (name ∈ _)) as [Hin|Hin]; [|discriminate E].
  rewrite L in Hin. split; [exact Hin|].
  destruct E as [[= ->]|(key & v & Hk & [= ->])]; [by left|right; eauto].
Qed.

(** X25: once the [State] is ok, [processOnSchedule] throws exactly when
    some dynamic property has a name that does not start with
    [initial.maxvalue.]. *)
Theorem processOnSchedule_throws context d q stateDir :
  QueryDatabaseTable.s_stateDirectory context = Some stateDir ->
  stateDir <> [] ->
  State.ok_ (State.State dirSeparator
               (QueryDatabaseTable.getProperty
                  (QueryDatabaseTable.s_tableName context)
                  (QueryDatabaseTable.tableName_ q))
               stateDir getUUIDStr d) = true ->
  (exists q' what,
     processOnSchedule context d q = QueryDatabaseTable.Threw q' what)
  <-> exists key value,
        (key, value) ∈ QueryDatabaseTable.dynamic_properties context
        /\ ~ QueryDatabaseTable.s_initialMaxValueDynamicPropertyPrefix `prefix_of` key.
Proof.
  intros SD Hdir Ok.
  destruct (processOnSchedule_with_state context d q stateDir SD Hdir Ok)
    as (q1 & m1 & -> & _).
  rewrite initial_values_throws. split.
  - intros (key & Hk & Hp).
    apply list_elem_of_In, in_map_iff in Hk as ([k v] & <- & Hkv).
    exists k, v. split; [by apply list_elem_of_In|exact Hp].
  - intros (key & value & Hkv & Hp). exists key. split; [|exact Hp].
    apply list_elem_of_In, in_map_iff. exists (key, value).
    split; [reflexivity|by apply list_elem_of_In].
Qed.

End Schedule.

(** ** The properties on the fixture *)

Ltac closed_fact := apply (bool_decide_unpack _); vm_compute; exact I.

Ltac each_entry H :=
  repeat (apply elem_of_cons in H as [H|H];
          [injection H as -> ->; repeat split; closed_fact|]);
  inversion H.

Lemma fixture_State_consistent : State.consistent fixture_State.
Proof.
  split; [reflexivity|]. split; [reflexivity|].
  exists []. split; [reflexivity|].
  intros c H. vm_compute in H. inversion H.
Qed.

Lemma fixture_mapState_storable : State.storable (str "orders") fixture_mapState.
Proof.
  split; [closed_fact|]. split; [|closed_fact].
  intros name value H. unfold fixture_mapState in H. each_entry H.
Qed.

Lemma State_write_then_read_witness :
  State.consistent fixture_State
  /\ State.storable (State.tableName_ fixture_State) fixture_mapState
  /\ State.mapState
       (State.State "/"%char (str "orders") (str "QDTState") (str "1234")
          (State.disk (State.writeStateToFile fixture_mapState fixture_State)))
     = fixture_mapState.
Proof.
  split; [exact fixture_State_consistent|].
  split; [exact fixture_mapState_storable|].
  destruct (State_write_then_read "/"%char (str "QDTState") (str "1234")
              fixture_State fixture_mapState
              fixture_State_consistent fixture_mapState_storable)
    as (_ & _ & _ & M & _); [discriminate|reflexivity|].
  exact M.
Defined.

Lemma State_discards_other_table_witness :
  State.content fixture_disk_other_table
  = Some (str "customers" ++ State.separator ++ str "id=10@!qdt!@")
  /\ State.mapState
       (State.State "/"%char (str "orders") (str "QDTState") (str "1234")
          fixture_disk_other_table) = []
  /\ State.content
       (State.disk
          (State.State "/"%char (str "orders") (str "QDTState") (str "1234")
             fixture_disk_other_table)) = Some [].
Proof.
  split; [reflexivity|].
  destruct (State_discards_other_table "/"%char (str "orders") (str "QDTState")
              (str "1234") fixture_disk_other_table
              (str "customers") (str "id=10@!qdt!@"))
    as (_ & M & _ & C);
    [discriminate|reflexivity|reflexivity|reflexivity|closed_fact|discriminate|].
  split; [exact M|exact C].
Defined.

Lemma State_discards_malformed_file_witness :
  State.content fixture_disk_malformed
  = Some (str "orders" ++ State.separator ++ State.entries [(str "id", str "10")]
            ++ str "junk" ++ State.separator ++ [])
  /\ State.mapState
       (State.State "/"%char (str "orders") (str "QDTState") (str "1234")
          fixture_disk_malformed) = []
  /\ State.content
       (State.disk
          (State.State "/"%char (str "orders") (str "QDTState") (str "1234")
             fixture_disk_malformed)) = Some [].
Proof.
  split; [reflexivity|].
  destruct (State_discards_malformed_file "/"%char (str "QDTState") (str "1234")
              fixture_disk_malformed (str "orders") [(str "id", str "10")]
              (str "junk") [])
    as (_ & M & C);
    [discriminate|reflexivity|reflexivity| |closed_fact|closed_fact|reflexivity|].
  - split; [closed_fact|]. split; [|closed_fact].
    intros name value H. each_entry H.
  - split; [exact M|exact C].
Defined.

Lemma State_directory_separator_witness :
  last (str "QDTState") <> Some "/"%char
  /\ State.State "/"%char (str "orders") (str "QDTState/") (str "1234") fixture_disk
     = State.State "/"%char (str "orders") (str "QDTState") (str "1234") fixture_disk
  /\ State.filePath_ fixture_State = str "QDTState/uuid/1234/State.txt".
Proof.
  assert (H : last (str "QDTState") <> Some "/"%char) by discriminate.
  split; [exact H|].
  destruct (State_directory_separator "/"%char (str "orders") (str "QDTState")
              (str "1234") fixture_disk) as [E P]; [discriminate|exact H|].
  split; [exact E|exact (P eq_refl)].
Defined.

Lemma getSelectQuery_without_first_maximum_witness :
  QueryDatabaseTable.getSelectQuery fixture_processor_where
  = Some (str "select * from orders where  and x=1")
  /\ QueryDatabaseTable.mapState_ fixture_processor_where = []
  /\ (str "select * from orders where  and x=1"
      = QueryDatabaseTable.base_query fixture_processor_where
        /\ QueryDatabaseTable.whereClause_ fixture_processor_where = []
      \/ exists rest,
           str "select * from orders where  and x=1"
           = QueryDatabaseTable.base_query fixture_processor_where
               ++ str " where " ++ str " and " ++ rest).
Proof.
  split; [reflexivity|]. split; [reflexivity|].
  apply (getSelectQuery_without_first_maximum fixture_processor_where
           (str "select * from orders where  and x=1") eq_refl).
  left. reflexivity.
Defined.

Lemma getSelectQuery_all_recorded_witness :
  QueryDatabaseTable.listMaxValueColumnName_ fixture_processor_recorded
  = [str "id"; str "updated"]
  /\ QueryDatabaseTable.getSelectQuery fixture_processor_recorded
     = Some (str "select * from orders where id > 10 and updated >= 2020").
Proof.
  split; [reflexivity|].
  apply (getSelectQuery_all_recorded fixture_processor_recorded
           (str "id") (str "10") [str "updated"] [str "2020"] eq_refl).
  repeat (apply List.Forall2_cons; [split; [reflexivity|discriminate]|]).
  apply List.Forall2_nil.
Defined.

Lemma processOnSchedule_then_getSelectQuery_witness :
  exists q',
    QueryDatabaseTable.processOnSchedule fixture_inputStringToList fixture_toLower
      (str "1234") "/"%char fixture_context fixture_disk_recorded fixture_processor
    = QueryDatabaseTable.Returned q'
    /\ is_Some (QueryDatabaseTable.getSelectQuery q').
Proof.
  destruct (QueryDatabaseTable.processOnSchedule fixture_inputStringToList
              fixture_toLower (str "1234") "/"%char fixture_context
              fixture_disk_recorded fixture_processor) as [q'|q' what] eqn:R;
    [|vm_compute in R; discriminate R].
  exists q'. split; [reflexivity|].
  exact (processOnSchedule_then_getSelectQuery fixture_inputStringToList
           fixture_toLower (str "1234") "/"%char fixture_context
           fixture_disk_recorded fixture_processor q' eq_refl R).
Defined.

Lemma processOnSchedule_keeps_recorded_witness :
  (str "initial.maxvalue.id", str "5")
    ∈ QueryDatabaseTable.dynamic_properties fixture_context
  /\ unordered_map.find (str "id")
       (QueryDatabaseTable.mapState_
          (QueryDatabaseTable.after
             (QueryDatabaseTable.processOnSchedule fixture_inputStringToList
                fixture_toLower (str "1234") "/"%char fixture_context
                fixture_disk_recorded fixture_processor)))
     = Some (str "10").
Proof.
  split; [left|].
  apply (processOnSchedule_keeps_recorded fixture_inputStringToList fixture_toLower
           (str "1234") "/"%char fixture_context fixture_disk_recorded
           fixture_processor (str "QDTState") (str "id") (str "10"));
    try reflexivity; try discriminate.
  intros c Hc. vm_compute in Hc.
  apply elem_of_cons in Hc as [->|Hc]; [|inversion Hc].
  exists (str "10"). reflexivity.
Defined.

Lemma processOnSchedule_drops_stale_state_witness :
  length (fixture_inputStringToList (str "id,updated")) = 2%nat
  /\ unordered_map.find (str "id")
       (State.mapState
          (State.State "/"%char (str "orders") (str "QDTState") (str "1234")
             fixture_disk_recorded)) = Some (str "10")
  /\ unordered_map.find (str "id")
       (QueryDatabaseTable.mapState_
          (QueryDatabaseTable.after
             (QueryDatabaseTable.processOnSchedule fixture_inputStringToList
                fixture_toLower (str "1234") "/"%char fixture_context_two_columns
                fixture_disk_recorded fixture_processor)))
     = Some (str "5")
  /\ exists key,
       (key, str "5")
         ∈ QueryDatabaseTable.dynamic_properties fixture_context_two_columns.
Proof.
  split; [reflexivity|]. split; [reflexivity|].
  assert (F : unordered_map.find (str "id")
       (QueryDatabaseTable.mapState_
          (QueryDatabaseTable.after
             (QueryDatabaseTable.processOnSchedule fixture_inputStringToList
                fixture_toLower (str "1234") "/"%char fixture_context_two_columns
                fixture_disk_recorded fixture_processor)))
     = Some (str "5")) by reflexivity.
  split; [exact F|].
  destruct (processOnSchedule_drops_stale_state fixture_inputStringToList
              fixture_toLower (str "1234") "/"%char fixture_context_two_columns
              fixture_disk_recorded fixture_processor (str "QDTState")
              (str "id") (str "5") eq_refl) as [_ [E|K]];
    [discriminate|reflexivity|left; discriminate|exact F|discriminate E|exact K].
Defined.

Lemma processOnSchedule_throws_witness :
  (str "fetch.size", str "100")
    ∈ QueryDatabaseTable.dynamic_properties fixture_context_unsupported
  /\ exists q' what,
       QueryDatabaseTable.processOnSchedule fixture_inputStringToList
         fixture_toLower (str "1234") "/"%char fixture_context_unsupported
         fixture_disk fixture_processor
       = QueryDatabaseTable.Threw q' what.
Proof.
  assert (H : (str "fetch.size", str "100")
                ∈ QueryDatabaseTable.dynamic_properties fixture_context_unsupported)
    by (right; left).
  split; [exact H|].
  apply (processOnSchedule_throws fixture_inputStringToList fixture_toLower
           (str "1234") "/"%char fixture_context_unsupported fixture_disk
           fixture_processor (str "QDTState") eq_refl);
    [discriminate|reflexivity|].
  exists (str "fetch.size"), (str "100"). split; [exact H|].
  intros [k E]. discriminate E.
Defined.
